(** * intake.gui.source_select: selector widgets over an ordered options mapping

    A shallow embedding of [intake/gui/source_select.py]:
    [coerce_to_list], the [BaseSelector] adapter around a multi-select
    widget, and the catalog specific behaviour of [CatSelector] and
    [SourceSelector] (expanding and collapsing nested catalogs, the
    selection callback).  The methods are given twice: over the widget
    as a record, for what they assign, and over the widget with its
    reactions to what is assigned. *)

From Stdlib Require Import ZArith.
From stdpp Require Import base option list strings pretty gmap.


(** ** Python values, exceptions and results *)

(** The exceptions the embedded code can raise. *)
Inductive Exc : Set :=
  | AttributeError
  | KeyError
  | RuntimeError
  | StopIteration.

(** Outcome of a call: a value, a raised exception, or a loop of the
    model that used up its fuel (shown below never to happen). *)
Inductive Result (A : Type) : Type :=
  | Ok (a : A)
  | Raise (e : Exc)
  | OutOfFuel.
Arguments Ok {A} a.
Arguments Raise {A} e.
Arguments OutOfFuel {A}.

(** Methods read and write the object they are called on. *)
Definition M (St A : Type) : Type := St → Result (A * St).

Definition ret {St A} (a : A) : M St A := λ s, Ok (a, s).

Definition bind {St A B} (m : M St A) (k : A → M St B) : M St B :=
  λ s, match m s with
       | Ok (a, s') => k a s'
       | Raise e => Raise e
       | OutOfFuel => OutOfFuel
       end.

Definition gets {St A} (f : St → A) : M St A := λ s, Ok (f s, s).
Definition modify {St} (f : St → St) : M St unit := λ s, Ok (tt, f s).
Definition raise {St A} (e : Exc) : M St A := λ _, Raise e.
Definition lift {St A} (r : Result A) : M St A :=
  λ s, match r with
       | Ok a => Ok (a, s)
       | Raise e => Raise e
       | OutOfFuel => OutOfFuel
       end.

Notation "'let*' x ':=' m 'in' k" := (bind m (λ x, k))
  (at level 10, x pattern, m at level 100, k at level 200, only parsing).

(** [while cond: body], run for at most [fuel] iterations. *)
Fixpoint while {St : Type} (cond : St → bool) (body : St → St)
    (fuel : nat) (s : St) : option St :=
  if cond s then
    match fuel with
    | O => None
    | S fuel' => while cond body fuel' (body s)
    end
  else Some s.

(** [runs cond body n s s']: started in [s], the loop executes its body
    exactly [n] times and then leaves with state [s']. *)
Inductive runs {St : Type} (cond : St → bool) (body : St → St) :
    nat → St → St → Prop :=
  | runs_exit s : cond s = false → runs cond body 0 s s
  | runs_iter n s s' :
      cond s = true → runs cond body n (body s) s' →
      runs cond body (S n) s s'.

(** ** Ordered dictionaries

    [dict] and [OrderedDict] keep their keys in insertion order; the
    widget reads labels and values in that order, and [expand_nested]
    works on positions, so the model is an association list whose keys
    are pairwise distinct. *)
Module odict.
Section defs.
Context {V : Type}.

Definition t : Type := list (string * V).

Definition keys (d : t) : list string := d.*1.
Definition values (d : t) : list V := d.*2.

(** [d.get(k)] *)
Fixpoint get (k : string) (d : t) : option V :=
  match d with
  | [] => None
  | (k', v) :: d' => if decide (k' = k) then Some v else get k d'
  end.

(** [d[k] = v]: an existing key keeps its position, a new key goes
    last. *)
Fixpoint set (k : string) (v : V) (d : t) : t :=
  match d with
  | [] => [(k, v)]
  | (k', v') :: d' =>
      if decide (k' = k) then (k, v) :: d' else (k', v') :: set k v d'
  end.

(** [del d[k]] *)
Fixpoint del (k : string) (d : t) : t :=
  match d with
  | [] => []
  | (k', v') :: d' =>
      if decide (k' = k) then d' else (k', v') :: del k d'
  end.

(** [d.pop(k)] raises [KeyError] on a missing key. *)
Definition pop (k : string) (d : t) : Result (V * t) :=
  match get k d with
  | Some v => Ok (v, del k d)
  | None => Raise KeyError
  end.

(** [d.update(pairs)] *)
Definition update (d : t) (pairs : list (string * V)) : t :=
  fold_left (λ acc kv, set kv.1 kv.2 acc) pairs d.

(** [dict(pairs)] and [OrderedDict(pairs)] *)
Definition of_pairs (pairs : list (string * V)) : t := update [] pairs.

(** The representation invariant of a dictionary. *)
Definition wf (d : t) : Prop := NoDup (keys d).
End defs.
Arguments t V : clear implicits.
End odict.

(** ** Catalogs and their entries *)

(** An entry of a catalog: the container it declares and the object
    calling the entry ([e()]) yields. *)
Record Entry (Obj : Type) : Type := {
  _container : string;
  entry_call : Obj
}.
Arguments _container {Obj} e.
Arguments entry_call {Obj} e.

(** The attributes this module reads from catalog and source objects,
    and [intake.open_catalog]; all of them live outside this module.
    Equality on [Obj] stands for Python's [==] on these objects. *)
Class Catalog (Obj : Type) : Type := {
  name : Obj → string;
  cat : Obj → option Obj;
  _entries : Obj → list (Entry Obj);
  open_catalog : string → Obj
}.

(** The values handed to the selectors: [None], a string, a catalog or
    source object, or a list of such values. *)
#[warnings="-register-all"]
Inductive PyVal (Obj : Type) : Type :=
  | PNone
  | PStr (s : string)
  | PObj (o : Obj)
  | PList (l : list (PyVal Obj)).
Arguments PNone {Obj}.
Arguments PStr {Obj} s.
Arguments PObj {Obj} o.
Arguments PList {Obj} l.

Definition isinstance_list {Obj} (x : PyVal Obj) : bool :=
  match x with PList _ => true | _ => false end.

(** [coerce_to_list(items, preprocess=None)] *)
Definition coerce_to_list {Obj} (items : PyVal Obj)
    (preprocess : option (PyVal Obj → PyVal Obj)) : list (PyVal Obj) :=
  let items := match items with PList l => l | _ => [items] end in
  match preprocess with
  | Some f => map f items
  | None => items
  end.

(** [o in items], for an object [o] and a list of arbitrary values: only
    an object can compare equal to an object. *)
Definition py_in {Obj} `{EqDecision Obj} (o : Obj) (items : list (PyVal Obj)) : bool :=
  existsb (λ x, match x with PObj o' => bool_decide (o = o') | _ => false end) items.

(** ** The wrapped multi-select widget

    The widget holds the options, an ordered mapping from labels to
    objects, and the current selection; [labels] and [values] are the
    properties the widget derives from its options.  The record is the
    state of the widget; what the widget does when it is assigned to is
    described in [Reactive] further down. *)
Module Widget.
Section defs.
Context {Obj : Type}.

Record t : Type := make {
  options : odict.t Obj;
  value : list Obj
}.

Definition labels (w : t) : list string := odict.keys (options w).
Definition values (w : t) : list Obj := odict.values (options w).

Definition set_options (o : odict.t Obj) (w : t) : t :=
  {| options := o; value := value w |}.
Definition set_value (v : list Obj) (w : t) : t :=
  {| options := options w; value := v |}.
(** [set_param(options=..., value=...)] *)
Definition set_param (o : odict.t Obj) (v : list Obj) (w : t) : t :=
  {| options := o; value := v |}.
End defs.
Arguments t Obj : clear implicits.
End Widget.

(** ** BaseSelector

    The methods act on [self.widget], taken here as the record alone:
    each definition says what the method assigns.  How the widget reacts
    to these assignments, and the watchers that a subclass has
    registered, are added in [Reactive] further down, where each method
    is taken up again; the setter of [selected], which only assigns the
    value of the widget, is [Reactive.change_value]. *)
Module BaseSelector.
Section methods.
Context {Obj : Type} `{Catalog Obj} `{EqDecision Obj}.

(** The class attribute [preprocess]: [None] here and in
    [SourceSelector], a method in [CatSelector]. *)
Variable preprocess : option (PyVal Obj → PyVal Obj).

(** The read-only properties. *)
Definition labels : M (Widget.t Obj) (list string) := gets Widget.labels.
Definition items : M (Widget.t Obj) (list Obj) := gets Widget.values.
Definition options : M (Widget.t Obj) (odict.t Obj) := gets Widget.options.
Definition selected : M (Widget.t Obj) (list Obj) := gets Widget.value.

(** [(x.name, x)]; only catalog and source objects have a name. *)
Definition named (x : PyVal Obj) : Result (string * Obj) :=
  match x with
  | PObj o => Ok (name o, o)
  | _ => Raise AttributeError
  end.

Fixpoint map_named (l : list (PyVal Obj)) : Result (list (string * Obj)) :=
  match l with
  | [] => Ok []
  | x :: l' =>
      match named x with
      | Ok p =>
          match map_named l' with
          | Ok ps => Ok (p :: ps)
          | Raise e => Raise e
          | OutOfFuel => OutOfFuel
          end
      | Raise e => Raise e
      | OutOfFuel => OutOfFuel
      end
  end.

(** [_create_options(items)] *)
Definition _create_options (items : PyVal Obj) : Result (odict.t Obj) :=
  match map_named (coerce_to_list items preprocess) with
  | Ok ps => Ok (odict.of_pairs ps)
  | Raise e => Raise e
  | OutOfFuel => OutOfFuel
  end.

(** The setter of [options]. *)
Definition set_options (new : PyVal Obj) : M (Widget.t Obj) unit :=
  let* options := lift (_create_options new) in
  let* v := gets Widget.value in
  match v with
  | _ :: _ =>
      modify (Widget.set_param options (take 1 (odict.values options)))
  | [] =>
      let* _ := modify (Widget.set_options options) in
      modify (Widget.set_value (take 1 (odict.values options)))
  end.

(** The setter of [items]. *)
Definition set_items (items : PyVal Obj) : M (Widget.t Obj) unit :=
  match items with
  | PNone => ret tt
  | _ => set_options items
  end.

(** [f'{k}_{count}'] *)
Definition suffixed (k : string) (count : nat) : string :=
  k +:+ "_" +:+ pretty count.

(** [count = 0; while f'{k}_{count}' in self.labels: count += 1].  The
    labels are finite and the candidates pairwise distinct, so one more
    iteration than there are labels always suffices. *)
Definition first_free (labels : list string) (k : string) : option nat :=
  while (λ count, bool_decide (suffixed k count ∈ labels)) S
        (S (length labels)) 0.

(** The [for k, v in options.items()] loop of [add].  [todo] is what
    the iterator has still to yield, [options] the dictionary as the
    body has left it, and [mutated] whether the body changed it in the
    step before.  An [OrderedDict] iterator that is asked for a further
    entry after the dictionary changed raises [RuntimeError]; one that
    had already yielded the last entry just stops. *)
Fixpoint add_loop (labels : list string) (items : list Obj)
    (todo : list (string * Obj)) (options : odict.t Obj) (mutated : bool)
    : Result (odict.t Obj) :=
  match todo with
  | [] => Ok options
  | (k, v) :: todo' =>
      if mutated then Raise RuntimeError
      else if bool_decide (k ∈ labels) && negb (bool_decide (v ∈ items)) then
        match odict.pop k options with
        | Ok (_, options1) =>
            match first_free labels k with
            | Some count =>
                add_loop labels items todo'
                  (odict.set (suffixed k count) v options1) true
            | None => OutOfFuel
            end
        | Raise e => Raise e
        | OutOfFuel => OutOfFuel
        end
      else add_loop labels items todo' options false
  end.

(** [add(items)] *)
Definition add (new : PyVal Obj) : M (Widget.t Obj) unit :=
  let* options := lift (_create_options new) in
  let* ls := labels in
  let* its := items in
  let* options := lift (add_loop ls its options options false) in
  let* _ := modify (λ w, Widget.set_options
                           (odict.update (Widget.options w) options) w) in
  modify (Widget.set_value (take 1 (odict.values options))).

(** [remove(items)] *)
Definition remove (items : PyVal Obj) : M (Widget.t Obj) unit :=
  let items := coerce_to_list items None in
  let* opts := options in
  let new_options := filter (λ kv, ¬ py_in kv.2 items) opts in
  modify (Widget.set_options new_options).

(** [list(map(f, l))] for an [f] that may raise: the first exception
    ends the call. *)
Fixpoint map_result {A B} (f : A → Result B) (l : list A) : Result (list B) :=
  match l with
  | [] => Ok []
  | x :: l' =>
      match f x with
      | Ok y =>
          match map_result f l' with
          | Ok ys => Ok (y :: ys)
          | Raise e => Raise e
          | OutOfFuel => OutOfFuel
          end
      | Raise e => Raise e
      | OutOfFuel => OutOfFuel
      end
  end.

(** The local function [preprocess] of the setter of [selected]:
    a string stands for the option with that label. *)
Definition selected_preprocess (options : odict.t Obj) (item : PyVal Obj)
    : Result (PyVal Obj) :=
  match item with
  | PStr s =>
      match odict.get s options with
      | Some v => Ok (PObj v)
      | None => Raise KeyError
      end
  | _ => Ok item
  end.

(** The setter of [selected], up to its last line: the list [items]
    that it then assigns to the value of the widget.  The list is made
    first and mapped afterwards, which is what [coerce_to_list] does
    with a [preprocess]. *)
Definition selected_items (new : PyVal Obj)
    : M (Widget.t Obj) (list (PyVal Obj)) :=
  let* opts := options in
  lift (map_result (selected_preprocess opts) (coerce_to_list new None)).
End methods.
End BaseSelector.

(** ** Helpers for strings, lists and generators *)

(** [sub in s] *)
Definition str_contains (sub s : string) : bool :=
  match String.index 0 sub s with Some _ => true | None => false end.

(** [s.split(sep)[0]]: the text in front of the first [sep], or all of
    [s] when [sep] does not occur. *)
Definition split_head (sep s : string) : string :=
  match String.index 0 sep s with
  | Some i => String.substring 0 i s
  | None => s
  end.

(** [next(g)] on a generator that yields the elements of [l]. *)
Definition next {A} (l : list A) : Result A :=
  match l with
  | x :: _ => Ok x
  | [] => Raise StopIteration
  end.

(** [enumerate(l)] *)
Definition enumerate {A} (l : list A) : list (nat * A) :=
  zip (seq 0 (length l)) l.

(** [l.insert(i, x)]: in front of position [i], at the end when [i] is
    past the end. *)
Definition list_insert_at {A} (i : nat) (x : A) (l : list A) : list A :=
  take i l ++ x :: drop i l.

(** ** Selectors with watchers *)

(** The widget parameters that are watched. *)
Inductive ParamName : Set := clicks | value.

(** The bound methods registered as watchers. *)
Inductive Handler : Set :=
  | CatSelector_remove_selected
  | CatSelector_expand_nested
  | CatSelector_callback
  | SourceSelector_callback.

Global Instance ParamName_eq_dec : EqDecision ParamName.
Proof. solve_decision. Defined.

Module Selector.
Section defs.
Context {Obj World : Type}.

(** The attributes of a selector: the widget, the caller's
    [done_callback], the [disabled] flag of the remove button (once
    [setup] has made the button) and the registered watchers.  [world]
    is the state of the caller, which only [done_callback] changes. *)
Record t : Type := make {
  widget : Widget.t Obj;
  done_callback : option (list Obj → World → World);
  remove_button : option bool;
  watchers : list (Handler * ParamName);
  world : World
}.

Definition set_widget (w : Widget.t Obj) (s : t) : t :=
  make w (done_callback s) (remove_button s) (watchers s) (world s).
Definition set_remove_button (b : option bool) (s : t) : t :=
  make (widget s) (done_callback s) b (watchers s) (world s).
Definition set_watchers (ws : list (Handler * ParamName)) (s : t) : t :=
  make (widget s) (done_callback s) (remove_button s) ws (world s).
Definition set_world (x : World) (s : t) : t :=
  make (widget s) (done_callback s) (remove_button s) (watchers s) x.

(** Run a method of the widget adapter on [self.widget]. *)
Definition on_widget {A} (m : M (Widget.t Obj) A) : M t A :=
  λ s, match m (widget s) with
       | Ok (a, w) => Ok (a, set_widget w s)
       | Raise e => Raise e
       | OutOfFuel => OutOfFuel
       end.
End defs.
Arguments t Obj World : clear implicits.
End Selector.

(** ** CatSelector *)
Module CatSelector.
Section methods.
Context {Obj World : Type} `{Catalog Obj} `{Countable Obj}.

(** [preprocess(cat)] *)
Definition preprocess (c : PyVal Obj) : PyVal Obj :=
  match c with
  | PStr s => PObj (open_catalog s)
  | _ => c
  end.

(** [setup()] *)
Definition setup : M (Selector.t Obj World) unit :=
  let* _ := modify (Selector.set_remove_button (Some false)) in
  modify (Selector.set_watchers
            [ (CatSelector_remove_selected, clicks);
              (CatSelector_expand_nested, value);
              (CatSelector_callback, value) ]).

(** [callback(event)], with [new] for [event.new]. *)
Definition callback (new : list Obj) : M (Selector.t Obj World) unit :=
  let* button := gets Selector.remove_button in
  match button with
  | None => raise AttributeError
  | Some _ =>
      let* _ := modify (Selector.set_remove_button
                          (Some (bool_decide (new = [])))) in
      let* cb := gets Selector.done_callback in
      match cb with
      | Some done => modify (λ s, Selector.set_world (done new (Selector.world s)) s)
      | None => ret tt
      end
  end.

(** The local function [get_children] of [expand_nested]. *)
Definition get_children (parent : Obj) : list Obj :=
  entry_call <$> filter (λ e, _container e = "catalog") (_entries parent).

(** [expand_nested(event)], with [new] for [event.new] and the widget
    for [event.obj]. *)
Definition expand_nested (new : list Obj) : M (Widget.t Obj) unit :=
  let down := "│" in
  let right := "└──" in
  match new with
  | [] => ret tt
  | got :: _ =>
      let* old := gets (λ w : Widget.t Obj, Widget.options w) in
      let* name_ := lift (next (fst <$> filter (λ kv, kv.2 = got) old)) in
      let* index := lift (next (fst <$> filter (λ ikv, ikv.2.2 = got)
                                                (enumerate old))) in
      let prefix :=
        if str_contains right name_
        then split_head right name_ +:+ down +:+ " " +:+ right
        else right in
      let children := get_children got in
      let old := foldl (λ old ic,
                   list_insert_at (index + ic.1 + 1)
                     (prefix +:+ " " +:+ name ic.2, ic.2) old)
                   old (enumerate children) in
      modify (Widget.set_options (odict.of_pairs old))
  end.

(** The variables of the loop of [collapse_nested]. *)
Record Collapse : Type := {
  children : list Obj;
  removed : gset Obj;
  nested : list Obj;
  parents_to_remove : gset Obj;
  nestedness : Z
}.

(** [c.cat in ps] *)
Definition cat_in (ps : gset Obj) (c : Obj) : Prop :=
  match cat c with Some p => p ∈ ps | None => False end.

Global Instance cat_in_dec ps c : Decision (cat_in ps c).
Proof. unfold cat_in. destruct (cat c); apply _. Defined.

(** [len(parents_to_remove) > 0 and nestedness > 0] *)
Definition collapse_cond (st : Collapse) : bool :=
  bool_decide (0 < size (parents_to_remove st))
  && bool_decide (0 < nestedness st)%Z.

(** One pass through the body of the loop. *)
Definition collapse_body (parents : gset Obj) (st : Collapse) : Collapse :=
  let children :=
    children st ++ filter (cat_in (parents_to_remove st)) (nested st) in
  let removed := removed st ∪ parents_to_remove st in
  let nested := filter (λ c, c ∉ children) (nested st) in
  let parents_to_remove :=
    list_to_set (filter (λ c, c ∈ parents ∖ removed) children) in
  {| children := children;
     removed := removed;
     nested := nested;
     parents_to_remove := parents_to_remove;
     nestedness := nestedness st - 1 |}.

(** The state in which the loop is entered.  [parents_to_remove]
    starts as the list [cats] and is a set from the first pass on; the
    loop only asks whether it is empty and what it contains, so it is
    held as a set throughout. *)
Definition collapse_init (old : list Obj) (cats : list Obj)
    (max_nestedness : Z) : Collapse :=
  {| children := [];
     removed := ∅;
     nested := filter (λ c, is_Some (cat c)) old;
     parents_to_remove := list_to_set cats;
     nestedness := max_nestedness |}.

(** [collapse_nested(cats, max_nestedness=10)] *)
Definition collapse_nested (cats : list Obj) (max_nestedness : Z)
    : M (Widget.t Obj) unit :=
  let* opts := gets (λ w : Widget.t Obj, Widget.options w) in
  let old := odict.values opts in
  let nested := filter (λ c, is_Some (cat c)) old in
  let parents : gset Obj := list_to_set (omap cat nested) in
  match while collapse_cond (collapse_body parents)
              (Z.to_nat max_nestedness)
              (collapse_init old cats max_nestedness) with
  | Some st => BaseSelector.remove (PList (PObj <$> children st))
  | None => λ _, OutOfFuel
  end.

(** [remove_selected], whatever arguments the button passes *)
Definition remove_selected : M (Widget.t Obj) unit :=
  let* sel := BaseSelector.selected in
  let* _ := collapse_nested sel 10 in
  let* sel := BaseSelector.selected in
  BaseSelector.remove (PList (PObj <$> sel)).
End methods.
End CatSelector.

(** A catalog entry as the object it is itself, with a name of its own:
    the source selector lists the entries, not what calling them
    yields. *)
Class EntryObjects (Obj : Type) : Type := {
  entry_self : Entry Obj → Obj
}.

(** ** SourceSelector *)
Module SourceSelector.
Section methods.
Context {Obj World : Type}.

(** [setup()] *)
Definition setup : M (Selector.t Obj World) unit :=
  modify (Selector.set_watchers [ (SourceSelector_callback, value) ]).

(** [callback(event)], with [new] for [event.new]. *)
Definition callback (new : list Obj) : M (Selector.t Obj World) unit :=
  let* cb := gets Selector.done_callback in
  match cb with
  | Some done => modify (λ s, Selector.set_world (done new (Selector.world s)) s)
  | None => ret tt
  end.
End methods.

Section cats.
Context {Obj : Type} `{Catalog Obj} `{EntryObjects Obj} `{EqDecision Obj}.

(** [[entry for entry in cat._entries.values()
      if entry._container != 'catalog']] *)
Definition source_entries (c : Obj) : list Obj :=
  entry_self <$> filter (λ e, _container e ≠ "catalog") (_entries c).

(** The loop of the setter of [cats]: only a catalog object has
    [_entries]. *)
Fixpoint collect_sources (cats : list (PyVal Obj)) (sources : list Obj)
    : Result (list Obj) :=
  match cats with
  | [] => Ok sources
  | PObj c :: cats' => collect_sources cats' (sources ++ source_entries c)
  | _ :: _ => Raise AttributeError
  end.

(** The setter of [cats]; [preprocess] is [None] in this class. *)
Definition set_cats (cats : PyVal Obj) : M (Widget.t Obj) unit :=
  let* sources := lift (collect_sources (coerce_to_list cats None) []) in
  BaseSelector.set_items None (PList (PObj <$> sources)).
End cats.
End SourceSelector.

(** ** Watcher dispatch

    The watch mechanism belongs to the widget toolkit.  It is taken to
    call the watchers of a parameter in the order in which they were
    registered, each with the same event; an exception raised by one of
    them propagates, so the watchers after it are not called.

    This section is one round of calls over the record: the watchers
    run the methods above as they are.  What the widget does in
    between, and the calls within calls that follow from it, are in
    [Reactive]. *)
Section dispatch.
Context {Obj World : Type} `{Catalog Obj} `{Countable Obj}.

Definition run_handler (h : Handler) (new : list Obj)
    : M (Selector.t Obj World) unit :=
  match h with
  | CatSelector_remove_selected => Selector.on_widget CatSelector.remove_selected
  | CatSelector_expand_nested => Selector.on_widget (CatSelector.expand_nested new)
  | CatSelector_callback => CatSelector.callback new
  | SourceSelector_callback => SourceSelector.callback new
  end.

Fixpoint run_handlers (hs : list Handler) (new : list Obj)
    : M (Selector.t Obj World) unit :=
  match hs with
  | [] => ret tt
  | h :: hs' => let* _ := run_handler h new in run_handlers hs' new
  end.

(** The watchers of parameter [p] are triggered with [event.new = new]. *)
Definition trigger (p : ParamName) (new : list Obj)
    : M (Selector.t Obj World) unit :=
  let* ws := gets Selector.watchers in
  run_handlers (fst <$> filter (λ w, w.2 = p) ws) new.

(** The selection of the widget is set to a list [new] other than the
    one it has: the value is stored and the watchers of [value] are
    triggered.  For a list equal to the old one the toolkit makes a
    comparison of its own, see [Toolkit] below; here nothing is done
    in that case. *)
Definition change_value (new : list Obj) : M (Selector.t Obj World) unit :=
  let* old := gets (λ s, Widget.value (Selector.widget s)) in
  if decide (old = new) then ret tt
  else
    let* _ := modify (λ s, Selector.set_widget
                             (Widget.set_value new (Selector.widget s)) s) in
    trigger value new.
End dispatch.

(** ** The widget with its reactions

    The multi-select widget is not a passive record, and the methods
    above only say what is assigned to it.  Two reactions of the widget
    follow an assignment:

    - after an event on [options] (an assignment, or
      [param.trigger('options')]) the widget drops from [value] every
      object that is not a value of the options any more; when that
      drops something, the shortened list is assigned to [value];
    - an assignment to [value] calls the watchers of [value], in the
      order of their registration and before the assignment returns,
      unless the toolkit finds the new list unchanged.

    A watcher may assign to the widget in its turn ([expand_nested]
    assigns the options), so the reactions nest.  The comparison the
    toolkit makes between the old and the new list is its own affair;
    all that is used of it is that two lists it finds unchanged are
    equal. *)
Class Toolkit (Obj : Type) : Type := {
  unchanged : list Obj → list Obj → bool;
  unchanged_eq : ∀ old new, unchanged old new = true → old = new
}.

(** The watchers of [value], in the order of their registration. *)
Definition value_watchers {Obj World} (s : Selector.t Obj World) : list Handler :=
  fst <$> filter (λ w, w.2 = value) (Selector.watchers s).

Module Reactive.
Section defs.
Context {Obj World : Type} `{Catalog Obj} `{Countable Obj} `{Toolkit Obj}.

(** What is run when the value of the widget has been assigned: the
    watchers, called with the new value. *)
Definition Notify : Type := list Obj → M (Selector.t Obj World) unit.

(** A write to the widget that causes no event. *)
Definition store (f : Widget.t Obj → Widget.t Obj)
    : M (Selector.t Obj World) unit :=
  modify (λ s, Selector.set_widget (f (Selector.widget s)) s).

(** [widget.value = v] *)
Definition assign_value (notify : Notify) (v : list Obj)
    : M (Selector.t Obj World) unit :=
  let* old := gets (λ s, Widget.value (Selector.widget s)) in
  let* _ := store (Widget.set_value v) in
  if unchanged old v then ret tt else notify v.

(** The selected objects that are values of the options. *)
Definition kept (w : Widget.t Obj) : list Obj :=
  filter (λ v, v ∈ Widget.values w) (Widget.value w).

(** The widget once it has cut its selection down to the options. *)
Definition settle (w : Widget.t Obj) : Widget.t Obj :=
  Widget.set_value (kept w) w.

(** The reaction of the widget to an event on [options]. *)
Definition options_event (notify : Notify) : M (Selector.t Obj World) unit :=
  let* w := gets Selector.widget in
  if decide (kept w = Widget.value w) then ret tt
  else assign_value notify (kept w).

(** [widget.options = o] *)
Definition assign_options (notify : Notify) (o : odict.t Obj)
    : M (Selector.t Obj World) unit :=
  let* _ := store (Widget.set_options o) in
  options_event notify.

(** [widget.set_param(options=o, value=v)]: both are stored, then the
    widget reacts to the options and the watchers of [value] are
    called. *)
Definition set_param (notify : Notify) (o : odict.t Obj) (v : list Obj)
    : M (Selector.t Obj World) unit :=
  let* old := gets (λ s, Widget.value (Selector.widget s)) in
  let* _ := store (Widget.set_param o v) in
  let* _ := options_event notify in
  if unchanged old v then ret tt else notify v.

Section methods.
Variable preprocess : option (PyVal Obj → PyVal Obj).

(** The setter of [options]. *)
Definition set_options (notify : Notify) (new : PyVal Obj)
    : M (Selector.t Obj World) unit :=
  let* options := lift (BaseSelector._create_options preprocess new) in
  let* v := gets (λ s, Widget.value (Selector.widget s)) in
  match v with
  | _ :: _ => set_param notify options (take 1 (odict.values options))
  | [] =>
      let* _ := assign_options notify options in
      assign_value notify (take 1 (odict.values options))
  end.

(** The setter of [items]. *)
Definition set_items (notify : Notify) (items : PyVal Obj)
    : M (Selector.t Obj World) unit :=
  match items with
  | PNone => ret tt
  | _ => set_options notify items
  end.

(** [add(items)]: the options are updated in place, which is no event;
    [param.trigger('options')] is one; then the value is assigned. *)
Definition add (notify : Notify) (new : PyVal Obj)
    : M (Selector.t Obj World) unit :=
  let* options := lift (BaseSelector._create_options preprocess new) in
  let* ls := gets (λ s, Widget.labels (Selector.widget s)) in
  let* its := gets (λ s, Widget.values (Selector.widget s)) in
  let* options := lift (BaseSelector.add_loop ls its options options false) in
  let* _ := store (λ w, Widget.set_options
                          (odict.update (Widget.options w) options) w) in
  let* _ := options_event notify in
  assign_value notify (take 1 (odict.values options)).
End methods.

(** [remove(items)]: the assignment of the options, then
    [param.trigger('options')]. *)
Definition remove (notify : Notify) (items : PyVal Obj)
    : M (Selector.t Obj World) unit :=
  let items := coerce_to_list items None in
  let* opts := gets (λ s : Selector.t Obj World,
                       Widget.options (Selector.widget s)) in
  let new_options := filter (λ kv, ¬ py_in kv.2 items) opts in
  let* _ := assign_options notify new_options in
  options_event notify.

(** [expand_nested(event)], with [new] for [event.new] and the widget
    for [event.obj]; the last line assigns the options. *)
Definition expand_nested (notify : Notify) (new : list Obj)
    : M (Selector.t Obj World) unit :=
  let down := "│" in
  let right := "└──" in
  match new with
  | [] => ret tt
  | got :: _ =>
      let* old := gets (λ s : Selector.t Obj World,
                          Widget.options (Selector.widget s)) in
      let* name_ := lift (next (fst <$> filter (λ kv, kv.2 = got) old)) in
      let* index := lift (next (fst <$> filter (λ ikv, ikv.2.2 = got)
                                                (enumerate old))) in
      let prefix :=
        if str_contains right name_
        then split_head right name_ +:+ down +:+ " " +:+ right
        else right in
      let children := CatSelector.get_children got in
      let old := foldl (λ old ic,
                   list_insert_at (index + ic.1 + 1)
                     (prefix +:+ " " +:+ name ic.2, ic.2) old)
                   old (enumerate children) in
      assign_options notify (odict.of_pairs old)
  end.

(** [collapse_nested(cats, max_nestedness)]: the loop, then
    [self.remove(children)]. *)
Definition collapse_nested (notify : Notify) (cats : list Obj)
    (max_nestedness : Z) : M (Selector.t Obj World) unit :=
  let* opts := gets (λ s : Selector.t Obj World,
                       Widget.options (Selector.widget s)) in
  let old := odict.values opts in
  let nested := filter (λ c, is_Some (cat c)) old in
  let parents : gset Obj := list_to_set (omap cat nested) in
  match while CatSelector.collapse_cond (CatSelector.collapse_body parents)
              (Z.to_nat max_nestedness)
              (CatSelector.collapse_init old cats max_nestedness) with
  | Some st => remove notify (PList (PObj <$> CatSelector.children st))
  | None => λ _, OutOfFuel
  end.

(** [remove_selected]: [self.selected] is read again after
    [collapse_nested] and the reactions it caused. *)
Definition remove_selected (notify : Notify) : M (Selector.t Obj World) unit :=
  let* sel := gets (λ s, Widget.value (Selector.widget s)) in
  let* _ := collapse_nested notify sel 10 in
  let* sel := gets (λ s, Widget.value (Selector.widget s)) in
  remove notify (PList (PObj <$> sel)).

(** Each of these methods assigns what the method of the same name
    above assigns to the record: run that one on the widget as it is,
    and hand the record it leaves to [k], which makes the assignments
    on the reacting widget. *)
Definition assigning {A} (m : M (Widget.t Obj) A)
    (k : Widget.t Obj → M (Selector.t Obj World) unit)
    : M (Selector.t Obj World) unit :=
  λ s, match m (Selector.widget s) with
       | Ok (_, w') => k w' s
       | Raise e => Raise e
       | OutOfFuel => OutOfFuel
       end.

(** The call of one watcher. *)
Definition run_handler (notify : Notify) (h : Handler) (new : list Obj)
    : M (Selector.t Obj World) unit :=
  match h with
  | CatSelector_remove_selected => remove_selected notify
  | CatSelector_expand_nested => expand_nested notify new
  | CatSelector_callback => CatSelector.callback new
  | SourceSelector_callback => SourceSelector.callback new
  end.

Fixpoint run_handlers (notify : Notify) (hs : list Handler) (new : list Obj)
    : M (Selector.t Obj World) unit :=
  match hs with
  | [] => ret tt
  | h :: hs' =>
      let* _ := run_handler notify h new in run_handlers notify hs' new
  end.

(** The watchers of [value] are called with [new]; what they assign
    is reacted to with one unit of [fuel] less. *)
Fixpoint notify (fuel : nat) (new : list Obj) : M (Selector.t Obj World) unit :=
  match fuel with
  | O => λ _, OutOfFuel
  | S fuel' =>
      let* hs := gets value_watchers in
      run_handlers (notify fuel') hs new
  end.

(** A reaction inside a reaction is always to a shorter selection, so
    one more level than the selection is long suffices. *)
Definition dispatch : Notify := λ new, notify (S (length new)) new.

(** The selection of the widget is set to [new], by the user or by
    the setter of [selected]. *)
Definition change_value (new : list Obj) : M (Selector.t Obj World) unit :=
  assign_value dispatch new.

End defs.
End Reactive.

(** ** Vocabulary of the statements *)

(** The distinct elements of a list, each at the place where it first
    occurs. *)
Fixpoint first_occurrences (ks : list string) : list string :=
  match ks with
  | [] => []
  | k :: ks' => k :: filter (λ x, x ≠ k) (first_occurrences ks')
  end.

(** A [preprocess] that hands catalog and source objects on as they
    are. *)
Definition keeps_objects {Obj} (preprocess : option (PyVal Obj → PyVal Obj)) : Prop :=
  ∀ f, preprocess = Some f → ∀ o, f (PObj o) = PObj o.

(** The catalog an argument of a [CatSelector] stands for: a string is
    a path to open, a catalog is itself, anything else is no catalog. *)
Definition as_catalog {Obj} `{Catalog Obj} (x : PyVal Obj) : option Obj :=
  match x with
  | PStr s => Some (open_catalog s)
  | PObj o => Some o
  | _ => None
  end.

(** An entry of the options created by [add] that has to be renamed:
    its label is taken and its value is new. *)
Definition conflicts {Obj} (labels : list string) (items : list Obj)
    (kv : string * Obj) : Prop :=
  kv.1 ∈ labels ∧ kv.2 ∉ items.

Global Instance conflicts_dec {Obj} `{EqDecision Obj} (labels : list string)
    (items : list Obj) (kv : string * Obj) :
  Decision (conflicts labels items kv).
Proof. unfold conflicts. apply _. Defined.

(** The label under which a child catalog is shown below a parent
    with label [label]: what stands in front of the first corner piece of
    the parent's label, then a vertical bar and a corner piece, or just
    a corner piece below a top-level catalog; then the child's name. *)
Definition nested_label {Obj} `{Catalog Obj} (label : string) (child : Obj) : string :=
  (if str_contains "└──" label
   then split_head "└──" label +:+ "│ └──"
   else "└──") +:+ " " +:+ name child.

(** [nested_under values sel n o]: the option value [o] hangs [n]
    levels below a catalog of [sel], along parent links ([cat]) that lead
    through values of the options only. *)
Inductive nested_under {Obj} `{Catalog Obj} (values sel : list Obj) :
    nat → Obj → Prop :=
  | nested_child o p :
      o ∈ values → cat o = Some p → p ∈ sel →
      nested_under values sel 1 o
  | nested_deeper n o p :
      o ∈ values → cat o = Some p → nested_under values sel n p →
      nested_under values sel (S n) o.


(** A selector whose watchers of [value] only tell the caller: none at
    all (a [BaseSelector], or any selector before [setup]) or the
    callback of a [SourceSelector]. *)
Definition callbacks_only {Obj World} (s : Selector.t Obj World) : Prop :=
  Forall (λ h, h = SourceSelector_callback) (value_watchers s).

(** A [SourceSelector] after [setup]. *)
Definition source_ready {Obj World} (s : Selector.t Obj World) : Prop :=
  value_watchers s = [SourceSelector_callback].

(** A [CatSelector] after [setup]: the remove button is there, and
    [expand_nested] and then [callback] watch the value. *)
Definition cat_ready {Obj World} (s : Selector.t Obj World) : Prop :=
  is_Some (Selector.remove_button s) ∧
  value_watchers s = [CatSelector_expand_nested; CatSelector_callback].

(** [s'] has the watchers, the [done_callback] and the button of
    [s]. *)
Definition same_frame {Obj World} (s s' : Selector.t Obj World) : Prop :=
  Selector.watchers s' = Selector.watchers s ∧
  Selector.done_callback s' = Selector.done_callback s ∧
  Selector.remove_button s' = Selector.remove_button s.

(** [lands m s w']: started in [s], the call [m] returns and leaves
    the widget as [w'], within the frame of [s]. *)
Definition lands {Obj World} (m : M (Selector.t Obj World) unit)
    (s : Selector.t Obj World) (w' : Widget.t Obj) : Prop :=
  ∃ s', m s = Ok (tt, s') ∧ Selector.widget s' = w' ∧ same_frame s s'.

(** [s'] has the watchers and the [done_callback] of [s], and the
    remove button if [s] has it. *)
Definition keeps_setup {Obj World} (s s' : Selector.t Obj World) : Prop :=
  Selector.watchers s' = Selector.watchers s ∧
  Selector.done_callback s' = Selector.done_callback s ∧
  (is_Some (Selector.remove_button s) → is_Some (Selector.remove_button s')).

(** [calm m s]: started in [s], the call [m] comes to an end, and
    when it returns the selection is not longer than it was and the
    selector is set up as before. *)
Definition calm {Obj World} (m : M (Selector.t Obj World) unit)
    (s : Selector.t Obj World) : Prop :=
  m s ≠ OutOfFuel ∧
  ∀ s', m s = Ok (tt, s') →
        length (Widget.value (Selector.widget s')) ≤
        length (Widget.value (Selector.widget s)) ∧
        keeps_setup s s'.

(** The watchers are calm when they are called with a list [v] of
    fewer than [n] objects while the selection is no longer than [v]. *)
Definition calm_below {Obj World} (n : nat)
    (notify : list Obj → M (Selector.t Obj World) unit) : Prop :=
  ∀ v s, length (Widget.value (Selector.widget s)) ≤ length v →
         length v < n → calm (notify v) s.

(** What holds of the variables of the loop of [collapse_nested] after
    [k] passes, for the option values [old] and the catalogs [cats] the
    method was called with. *)
Record collapse_inv {Obj} `{Catalog Obj} `{Countable Obj}
    (old cats : list Obj) (max_nestedness : Z) (k : nat)
    (st : CatSelector.Collapse) : Prop := {
  inv_children : ∀ o,
    o ∈ CatSelector.children st ↔
    ∃ n, (1 ≤ n ∧ n ≤ k) ∧ nested_under old cats n o;
  inv_nested : ∀ o,
    o ∈ CatSelector.nested st ↔
    (o ∈ old ∧ is_Some (cat o)) ∧ o ∉ CatSelector.children st;
  inv_removed : ∀ p o,
    p ∈ CatSelector.removed st → o ∈ old → cat o = Some p →
    o ∈ CatSelector.children st;
  inv_todo : ∀ p,
    p ∈ CatSelector.parents_to_remove st →
    p ∈ cats ∨ p ∈ CatSelector.children st;
  inv_covered : ∀ p o,
    p ∈ cats ∨ p ∈ CatSelector.children st →
    o ∈ old → cat o = Some p →
    p ∈ CatSelector.parents_to_remove st ∨ p ∈ CatSelector.removed st;
  inv_nestedness :
    CatSelector.nestedness st = (max_nestedness - Z.of_nat k)%Z;
  inv_passes : k = 0 ∨ (Z.of_nat k ≤ max_nestedness)%Z
}.

(** ** A small concrete universe

    Twelve objects, numbered: two top-level catalogs [A] and [B] with
    nested catalogs, two catalogs that name each other as parent, and
    further objects that share the name [A]. *)
Module Demo.
Definition demo_name (o : nat) : string :=
  match o with
  | 0 => "A" | 1 => "B" | 2 => "x" | 3 => "y" | 4 => "x" | 5 => "z"
  | 6 => "p" | 7 => "q" | 8 => "A" | 9 => "src" | 10 => "A"
  | _ => "other"
  end.

Definition demo_cat (o : nat) : option nat :=
  match o with
  | 2 | 3 | 9 => Some 0
  | 4 => Some 1
  | 5 => Some 2
  | 6 => Some 7
  | 7 => Some 6
  | _ => None
  end.

Definition demo_entries (o : nat) : list (Entry nat) :=
  match o with
  | 0 => [ {| _container := "catalog"; entry_call := 2 |};
           {| _container := "dataframe"; entry_call := 9 |};
           {| _container := "catalog"; entry_call := 3 |} ]
  | 1 => [ {| _container := "catalog"; entry_call := 4 |} ]
  | 2 => [ {| _container := "catalog"; entry_call := 5 |} ]
  | _ => []
  end.

Global Instance demo_catalog : Catalog nat := {|
  name := demo_name;
  cat := demo_cat;
  _entries := demo_entries;
  open_catalog := λ _, 0
|}.

(** An entry is numbered like the object it yields. *)
Global Instance demo_entries_objects : EntryObjects nat := {|
  entry_self := entry_call
|}.

(** The caller's state is the list of the notifications it got. *)
Definition log_call (new : list nat) (log : list (list nat)) : list (list nat) :=
  log ++ [new].

Definition widget_AB : Widget.t nat :=
  {| Widget.options := [("A", 0); ("B", 1)]; Widget.value := [] |}.

(** [B] is expanded, [A] is not: the child of [B] is shown under the
    label that the first child of [A] would get. *)
Definition widget_B_expanded : Widget.t nat :=
  {| Widget.options := [("A", 0); ("B", 1); ("└── x", 4)];
     Widget.value := [1] |}.

(** What the widget shows after [A], its child [x] and then [B] were
    expanded, with [A] selected again. *)
Definition widget_collided : Widget.t nat :=
  {| Widget.options := [("A", 0); ("└── x", 4); ("│ └── z", 5);
                        ("└── y", 3); ("B", 1)];
     Widget.value := [0] |}.

(** Two catalogs that are each other's parent. *)
Definition widget_cycle : Widget.t nat :=
  {| Widget.options := [("p", 6); ("q", 7)]; Widget.value := [6] |}.

(** A catalog selector over [widget_AB] before [setup], with a caller
    that logs what it is told. *)
Definition selector_AB : Selector.t nat (list (list nat)) :=
  Selector.make widget_AB (Some log_call) None [] [].
(** The toolkit finds a list unchanged when the old and the new one
    are both empty. *)
Global Instance demo_toolkit : Toolkit nat.
Proof.
  refine {| unchanged := λ old new,
              match old, new with [], [] => true | _, _ => false end |}.
  by intros [|??] [|??].
Defined.

(** A catalog selector over a widget, after [setup], with a caller
    that logs what it is told. *)
Definition ready (w : Widget.t nat) : Selector.t nat (list (list nat)) :=
  Selector.make w (Some log_call) (Some false)
    [ (CatSelector_remove_selected, clicks);
      (CatSelector_expand_nested, value);
      (CatSelector_callback, value) ] [].


(** [A] is expanded, and selected together with its child [x]. *)
Definition widget_A_and_child : Widget.t nat :=
  {| Widget.options := [("A", 0); ("└── x", 2); ("└── y", 3); ("B", 1)];
     Widget.value := [0; 2] |}.

(** The child of [B] stands in front of [A] under the label that the
    first child of [A] gets. *)
Definition widget_x_in_front : Widget.t nat :=
  {| Widget.options := [("└── x", 4); ("A", 0); ("B", 1)];
     Widget.value := [] |}.
(** A selector over a widget before [setup]: nothing watches the
    value. *)
Definition plain (w : Widget.t nat) : Selector.t nat (list (list nat)) :=
  Selector.make w (Some log_call) None [] [].

(** A source selector over a widget, after [setup]. *)
Definition listening (w : Widget.t nat) : Selector.t nat (list (list nat)) :=
  Selector.make w (Some log_call) None [ (SourceSelector_callback, value) ] [].

(** [A] is expanded and selected. *)
Definition widget_A_expanded : Widget.t nat :=
  {| Widget.options := [("A", 0); ("└── x", 2); ("└── y", 3); ("B", 1)];
     Widget.value := [0] |}.

(** What can be seen of the outcome of a call: the widget, the
    [disabled] flag of the remove button and what the caller was told. *)
Definition outcome (r : Result (unit * Selector.t nat (list (list nat))))
    : Result (Widget.t nat * option bool * list (list nat)) :=
  match r with
  | Ok (_, s) => Ok (Selector.widget s, Selector.remove_button s, Selector.world s)
  | Raise e => Raise e
  | OutOfFuel => OutOfFuel
  end.
End Demo.


(** * Properties *)

(** ** Results and loops *)

(** Unfold the plumbing of the method monad. *)
Ltac run_m := unfold bind, gets, modify, lift, ret, raise in *; simpl in *.

Lemma while_runs {St} (cond : St → bool) (body : St → St) fuel s s' :
  while cond body fuel s = Some s' → ∃ n, n ≤ fuel ∧ runs cond body n s s'.
Proof.
  revert s. induction fuel as [|fuel IH]; intros s; simpl.
  - destruct (cond s) eqn:Hc; [done|]. intros [= <-].
    exists 0. split; [lia|]. by constructor.
  - destruct (cond s) eqn:Hc.
    + intros (n & Hn & Hr)%IH. exists (S n). split; [lia|]. by constructor.
    + intros [= <-]. exists 0. split; [lia|]. by constructor.
Qed.

Lemma runs_while {St} (cond : St → bool) (body : St → St) n s s' fuel :
  runs cond body n s s' → n ≤ fuel → while cond body fuel s = Some s'.
Proof.
  intros Hr. revert fuel. induction Hr as [s Hc|n s s' Hc Hr IH]; intros fuel Hle.
  - destruct fuel; simpl; by rewrite Hc.
  - destruct fuel as [|fuel]; [lia|]. simpl. rewrite Hc. apply IH. lia.
Qed.

Lemma runs_deterministic {St} (cond : St → bool) (body : St → St) n m s s1 s2 :
  runs cond body n s s1 → runs cond body m s s2 → n = m ∧ s1 = s2.
Proof.
  intros Hr. revert m s2.
  induction Hr as [s Hc|n s s' Hc Hr IH]; intros m s2 Hr2.
  - inversion Hr2; subst; [done|congruence].
  - inversion Hr2 as [|m' ? ? Hc' Hr2']; subst; [congruence|].
    destruct (IH _ _ Hr2') as [-> ->]. done.
Qed.

(** ** Ordered dictionaries *)
Section odict_facts.
Context {V : Type}.
Implicit Types (d : odict.t V) (k : string) (v : V) (ps : list (string * V)).

Lemma odict_keys_set k v d :
  odict.keys (odict.set k v d) =
    if decide (k ∈ odict.keys d) then odict.keys d else odict.keys d ++ [k].
Proof.
  unfold odict.keys. induction d as [|[k' v'] d IH]; csimpl; [done|].
  destruct (decide (k' = k)) as [->|Hne]; csimpl.
  - destruct (decide (k ∈ k :: d.*1)) as [Hin|Hin]; [done|].
    destruct Hin. apply elem_of_cons; by left.
  - rewrite IH. destruct (decide (k ∈ d.*1)) as [Hin|Hin].
    + destruct (decide (k ∈ k' :: d.*1)) as [Hin'|Hin']; [done|].
      destruct Hin'. apply elem_of_cons; by right.
    + destruct (decide (k ∈ k' :: d.*1)) as [Hin'|Hin']; [|done].
      apply elem_of_cons in Hin' as [?|?]; congruence.
Qed.

Lemma odict_set_fresh k v d :
  k ∉ odict.keys d → odict.set k v d = d ++ [(k, v)].
Proof.
  unfold odict.keys. induction d as [|[k' v'] d IH]; csimpl; [done|].
  intros Hnin. apply not_elem_of_cons in Hnin as [Hne Hnin].
  rewrite decide_False by done. by rewrite IH.
Qed.

Lemma odict_wf_set k v d : odict.wf d → odict.wf (odict.set k v d).
Proof.
  unfold odict.wf. rewrite odict_keys_set.
  destruct (decide (k ∈ odict.keys d)); [done|].
  intros Hnd. apply NoDup_app. split_and!; [done| |apply NoDup_singleton].
  intros x Hx ->%list_elem_of_singleton. done.
Qed.

Lemma odict_get_set k k' v d :
  odict.get k' (odict.set k v d) =
    if decide (k = k') then Some v else odict.get k' d.
Proof.
  induction d as [|[k1 v1] d IH]; simpl.
  - destruct (decide (k = k')); done.
  - destruct (decide (k1 = k)) as [->|Hne]; simpl.
    + destruct (decide (k = k')); done.
    + destruct (decide (k1 = k')) as [->|Hne'].
      * by rewrite decide_False.
      * done.
Qed.

Lemma odict_get_Some k v d : odict.get k d = Some v → (k, v) ∈ d.
Proof.
  induction d as [|[k1 v1] d IH]; simpl; [done|].
  destruct (decide (k1 = k)) as [->|Hne].
  - intros [= ->]. apply elem_of_cons; by left.
  - intros ?. apply elem_of_cons; right; auto.
Qed.

Lemma odict_get_None k d : odict.get k d = None ↔ k ∉ odict.keys d.
Proof.
  unfold odict.keys. induction d as [|[k1 v1] d IH]; simpl.
  - split; [intros _; apply not_elem_of_nil|done].
  - destruct (decide (k1 = k)) as [->|Hne].
    + split; [done|]. intros []. apply elem_of_cons; by left.
    + rewrite IH, not_elem_of_cons.
      split; [intros ?; split; [congruence|done]|by intros [_ ?]].
Qed.

Lemma odict_elem_of_get k v d :
  odict.wf d → (k, v) ∈ d → odict.get k d = Some v.
Proof.
  unfold odict.wf, odict.keys.
  induction d as [|[k1 v1] d IH]; simpl; [by intros _ ?%elem_of_nil|].
  intros [Hnin Hnd]%NoDup_cons [Heq|Hin]%elem_of_cons.
  - injection Heq as -> ->. by rewrite decide_True.
  - rewrite decide_False; [by apply IH|].
    intros ->. apply Hnin. apply list_elem_of_fmap. by exists (k, v).
Qed.

Lemma odict_keys_del k d :
  odict.keys (odict.del k d) ⊆ odict.keys d.
Proof.
  unfold odict.keys. induction d as [|[k1 v1] d IH]; simpl; [done|].
  destruct (decide (k1 = k)); simpl.
  - by apply list_subseteq_cons.
  - intros x [->|Hx]%elem_of_cons; apply elem_of_cons; [by left|right; auto].
Qed.

Lemma odict_wf_del k d : odict.wf d → odict.wf (odict.del k d).
Proof.
  unfold odict.wf, odict.keys. induction d as [|[k1 v1] d IH]; simpl; [done|].
  intros [Hnin Hnd]%NoDup_cons. destruct (decide (k1 = k)); [done|].
  simpl. apply NoDup_cons. split; [|auto].
  intros Hin. apply Hnin. by apply (odict_keys_del k d).
Qed.

Lemma odict_get_del_ne k k' d :
  k ≠ k' → odict.get k' (odict.del k d) = odict.get k' d.
Proof.
  intros Hne. induction d as [|[k1 v1] d IH]; simpl; [done|].
  destruct (decide (k1 = k)) as [->|Hne1]; simpl.
  - by rewrite decide_False.
  - by rewrite IH.
Qed.

Lemma odict_wf_update d ps : odict.wf d → odict.wf (odict.update d ps).
Proof.
  unfold odict.update. revert d.
  induction ps as [|p ps IH]; intros d Hd; simpl; [done|].
  apply IH. by apply odict_wf_set.
Qed.

Lemma odict_wf_of_pairs (ps : list (string * V)) :
  odict.wf (odict.of_pairs ps).
Proof. apply odict_wf_update. apply NoDup_nil_2. Qed.

(** Updating with pairs whose keys are new and pairwise distinct
    appends them. *)
Lemma odict_update_app d ps :
  odict.wf (d ++ ps) → odict.update d ps = d ++ ps.
Proof.
  unfold odict.update, odict.wf, odict.keys. revert d.
  induction ps as [|[k v] ps IH]; intros d Hd; simpl.
  - by rewrite app_nil_r.
  - rewrite odict_set_fresh.
    + rewrite IH; rewrite <- app_assoc; done.
    + rewrite fmap_app in Hd. apply NoDup_app in Hd as (_ & Hd & _).
      intros Hin. apply (Hd k Hin). simpl. apply elem_of_cons; by left.
Qed.

(** [dict(d.items())] is [d]. *)
Lemma odict_of_pairs_id d : odict.wf d → odict.of_pairs d = d.
Proof. intros Hd. unfold odict.of_pairs. by rewrite odict_update_app. Qed.

Lemma odict_get_app k d1 d2 :
  odict.get k (d1 ++ d2) =
    match odict.get k d1 with Some v => Some v | None => odict.get k d2 end.
Proof.
  induction d1 as [|[k1 v1] d1 IH]; simpl; [done|].
  destruct (decide (k1 = k)); done.
Qed.

(** In an update the last pair with a given key wins. *)
Lemma odict_get_update k d ps :
  odict.get k (odict.update d ps) =
    match odict.get k (reverse ps) with
    | Some v => Some v
    | None => odict.get k d
    end.
Proof.
  unfold odict.update. revert d.
  induction ps as [|[k1 v1] ps IH]; intros d; simpl; [done|].
  rewrite IH, reverse_cons, odict_get_app, odict_get_set. simpl.
  destruct (odict.get k (reverse ps)); [done|].
  destruct (decide (k1 = k)); done.
Qed.
End odict_facts.

Lemma filter_all {A} (P : A → Prop) `{!∀ x, Decision (P x)} (l : list A) :
  (∀ x, P x) → filter P l = l.
Proof.
  intros HP. induction l as [|x l IH]; [done|].
  rewrite filter_cons_True by done. by rewrite IH.
Qed.

Section odict_order.
Context {V : Type}.

Lemma odict_keys_update (d : odict.t V) (ps : list (string * V)) :
  odict.keys (odict.update d ps) =
    odict.keys d ++ filter (λ k, k ∉ odict.keys d) (first_occurrences ps.*1).
Proof.
  unfold odict.update. revert d.
  induction ps as [|[k v] ps IH]; intros d; csimpl.
  - by rewrite app_nil_r.
  - rewrite IH, odict_keys_set.
    destruct (decide (k ∈ odict.keys d)) as [Hin|Hin].
    + rewrite filter_cons_False by (intros Hk; by apply Hk).
      f_equal. rewrite list_filter_filter. apply list_filter_iff.
      intros x. split; [|by intros [? ?]].
      intros Hx. split; [done|]. by intros ->.
    + rewrite filter_cons_True by done.
      rewrite <- app_assoc. simpl. do 2 f_equal.
      rewrite list_filter_filter. apply list_filter_iff.
      intros x. rewrite not_elem_of_app, list_elem_of_singleton. tauto.
Qed.

Lemma odict_keys_of_pairs (ps : list (string * V)) :
  odict.keys (odict.of_pairs ps) = first_occurrences ps.*1.
Proof.
  unfold odict.of_pairs. rewrite odict_keys_update. simpl.
  apply filter_all. intros x. apply not_elem_of_nil.
Qed.

Lemma odict_zip_keys_values (d : odict.t V) :
  zip (odict.keys d) (odict.values d) = d.
Proof. apply zip_fst_snd. Qed.
End odict_order.

(** ** coerce_to_list *)

(** C9: [coerce_to_list] returns the elements of a list argument, and a
    one-element list holding any other argument; with a [preprocess]
    every element is mapped by it, in order. *)
Theorem coerce_to_list_spec {Obj} (items : PyVal Obj)
    (f : PyVal Obj → PyVal Obj) :
  (∀ l, items = PList l →
     coerce_to_list items None = l ∧
     coerce_to_list items (Some f) = f <$> l) ∧
  (isinstance_list items = false →
     coerce_to_list items None = [items] ∧
     coerce_to_list items (Some f) = [f items]).
Proof.
  split.
  - by intros l ->.
  - by destruct items.
Qed.

Lemma py_in_spec {Obj} `{EqDecision Obj} (o : Obj) (items : list (PyVal Obj)) :
  py_in o items ↔ PObj o ∈ items.
Proof.
  unfold py_in. induction items as [|x items IH]; simpl.
  - split; [done|by intros ?%elem_of_nil].
  - rewrite orb_True, IH, elem_of_cons. apply or_iff_compat_r.
    destruct x as [|s|o'|l]; simpl; try (split; [done|by intros [=]]).
    rewrite bool_decide_spec. split; [by intros ->|by intros [= ->]].
Qed.

(** ** BaseSelector *)
Section BaseSelector_facts.
Context {Obj : Type} `{Catalog Obj} `{EqDecision Obj}.
Variable preprocess : option (PyVal Obj → PyVal Obj).

(** C6: the properties [labels], [items], [options] and [selected]
    read the labels, values, options and value of the wrapped widget
    and leave the widget as it is; the options are the mapping that
    pairs the labels with the items in order. *)
Theorem views_of_widget (w : Widget.t Obj) :
  odict.wf (Widget.options w) →
  BaseSelector.labels w = Ok (Widget.labels w, w) ∧
  BaseSelector.items w = Ok (Widget.values w, w) ∧
  BaseSelector.options w = Ok (Widget.options w, w) ∧
  BaseSelector.selected w = Ok (Widget.value w, w) ∧
  Widget.options w = zip (Widget.labels w) (Widget.values w) ∧
  Widget.options w = odict.of_pairs (zip (Widget.labels w) (Widget.values w)).
Proof.
  intros Hwf. split_and!; try done.
  - symmetry. apply odict_zip_keys_values.
  - unfold Widget.labels, Widget.values.
    rewrite odict_zip_keys_values. symmetry. by apply odict_of_pairs_id.
Qed.

Lemma map_named_objects (os : list Obj) :
  BaseSelector.map_named (PObj <$> os) = Ok ((λ o, (name o, o)) <$> os).
Proof. induction os as [|o os IH]; csimpl; [done|]. by rewrite IH. Qed.

Lemma coerce_to_list_objects (os : list Obj) :
  keeps_objects preprocess →
  coerce_to_list (PList (PObj <$> os)) preprocess = PObj <$> os.
Proof.
  intros Hk. unfold coerce_to_list. destruct preprocess as [f|]; [|done].
  rewrite <- list_fmap_compose. apply list_fmap_ext. intros ? o _. simpl.
  by apply Hk.
Qed.

Lemma create_options_objects (os : list Obj) :
  keeps_objects preprocess →
  BaseSelector._create_options preprocess (PList (PObj <$> os)) =
    Ok (odict.of_pairs ((λ o, (name o, o)) <$> os)).
Proof.
  intros Hk. unfold BaseSelector._create_options.
  by rewrite coerce_to_list_objects, map_named_objects.
Qed.

Lemma create_options_object (o : Obj) :
  keeps_objects preprocess →
  BaseSelector._create_options preprocess (PObj o) =
    Ok (odict.of_pairs [(name o, o)]).
Proof.
  intros Hk. unfold BaseSelector._create_options, coerce_to_list.
  destruct preprocess as [f|]; simpl; [|done].
  by rewrite (Hk f eq_refl).
Qed.

(** What the setter of [options] leaves behind. *)
Lemma set_options_ok (new : PyVal Obj) (created : odict.t Obj) (w : Widget.t Obj) :
  BaseSelector._create_options preprocess new = Ok created →
  BaseSelector.set_options preprocess new w =
    Ok (tt, {| Widget.options := created;
               Widget.value := take 1 (odict.values created) |}).
Proof.
  intros Hc. unfold BaseSelector.set_options, bind, lift, gets, modify.
  rewrite Hc. by destruct (Widget.value w).
Qed.

Lemma set_options_inv (new : PyVal Obj) (w w' : Widget.t Obj) :
  BaseSelector.set_options preprocess new w = Ok (tt, w') →
  BaseSelector._create_options preprocess new = Ok (Widget.options w') ∧
  Widget.value w' = take 1 (Widget.values w').
Proof.
  unfold BaseSelector.set_options, bind, lift, gets, modify.
  destruct (BaseSelector._create_options preprocess new) as [created| |];
    [|done..].
  destruct (Widget.value w); intros [= <-]; done.
Qed.

Lemma get_reverse_named (k : string) (os : list Obj) :
  odict.get k (reverse ((λ o, (name o, o)) <$> os)) =
    last (filter (λ o, name o = k) os).
Proof.
  induction os as [|o os IH]; [done|].
  rewrite fmap_cons, reverse_cons, odict_get_app, IH. simpl.
  destruct (decide (name o = k)) as [Hk|Hk].
  - rewrite filter_cons_True by done. by rewrite last_cons.
  - rewrite filter_cons_False by done. by destruct (last _).
Qed.

(** What the setter of [items] assigns for a named item or a list of
    named items: as options the ordered mapping from each item's name
    to the item, in input order, and as value the value of the first
    option (nothing when there is no option). *)
Lemma set_items_named (w : Widget.t Obj) (new : PyVal Obj) (os : list Obj) :
  keeps_objects preprocess →
  new = PList (PObj <$> os) ∨ (∃ o, new = PObj o ∧ os = [o]) →
  ∃ w', BaseSelector.set_items preprocess new w = Ok (tt, w') ∧
        Widget.options w' = odict.of_pairs ((λ o, (name o, o)) <$> os) ∧
        odict.wf (Widget.options w') ∧
        Widget.labels w' = first_occurrences (name <$> os) ∧
        (∀ k, odict.get k (Widget.options w') =
                last (filter (λ o, name o = k) os)) ∧
        (NoDup (name <$> os) →
           Widget.options w' = (λ o, (name o, o)) <$> os) ∧
        Widget.value w' =
          match Widget.values w' with [] => [] | v :: _ => [v] end.
Proof.
  intros Hk Hnew.
  set (pairs := (λ o, (name o, o)) <$> os).
  assert (BaseSelector._create_options preprocess new =
            Ok (odict.of_pairs pairs)) as Hc.
  { destruct Hnew as [->|(o & -> & ->)].
    - by apply create_options_objects.
    - by apply create_options_object. }
  assert (BaseSelector.set_items preprocess new w =
            BaseSelector.set_options preprocess new w) as ->.
  { by destruct Hnew as [->|(o & -> & _)]. }
  rewrite (set_options_ok _ _ w Hc). eexists. split; [done|]. simpl.
  split_and!.
  - done.
  - apply odict_wf_of_pairs.
  - unfold Widget.labels. simpl. rewrite odict_keys_of_pairs.
    unfold pairs. by rewrite <- list_fmap_compose.
  - intros k. unfold odict.of_pairs. rewrite odict_get_update.
    unfold pairs. rewrite get_reverse_named. by destruct (last _).
  - intros Hnd. apply odict_of_pairs_id. unfold odict.wf, odict.keys, pairs.
    by rewrite <- list_fmap_compose.
  - unfold Widget.values. simpl. by destruct (odict.values _).
Qed.

(** C10: assigning [None] to [items] leaves the options and the value
    of the widget as they were; any other assignment goes through the
    setter of [options], after which the options are the ones created
    from the assigned value alone. *)
Theorem set_items_None (w : Widget.t Obj) :
  BaseSelector.set_items preprocess PNone w = Ok (tt, w) ∧
  (∀ new, new ≠ PNone →
     BaseSelector.set_items preprocess new w =
       BaseSelector.set_options preprocess new w) ∧
  (∀ new w', new ≠ PNone →
     BaseSelector.set_items preprocess new w = Ok (tt, w') →
     BaseSelector._create_options preprocess new = Ok (Widget.options w')).
Proof.
  split_and!.
  - done.
  - by intros [] ?.
  - intros new w' Hne Hset.
    assert (BaseSelector.set_options preprocess new w = Ok (tt, w')) as Hopt.
    { by destruct new. }
    by apply set_options_inv in Hopt as [? _].
Qed.

End BaseSelector_facts.

(** ** add *)
Section add_facts.
Context {Obj : Type} `{Catalog Obj} `{EqDecision Obj}.
Variable preprocess : option (PyVal Obj → PyVal Obj).
Implicit Types (labels : list string) (items : list Obj) (k : string).

Lemma suffixed_inj k : Inj (=) (=) (BaseSelector.suffixed k).
Proof.
  intros n m Heq. unfold BaseSelector.suffixed in Heq.
  apply (inj (String.app k)) in Heq.
  apply (inj (String.app "_")) in Heq.
  by apply (inj pretty) in Heq.
Qed.

(** Only as many candidates as there are labels can be taken. *)
Lemma taken_bound labels k count :
  (∀ n, n < count → BaseSelector.suffixed k n ∈ labels) →
  count ≤ length labels.
Proof.
  intros Hall.
  assert ((BaseSelector.suffixed k <$> seq 0 count) ⊆+ labels) as Hsub.
  { apply NoDup_submseteq.
    - apply (NoDup_fmap_2_strong (BaseSelector.suffixed k)); [|apply NoDup_seq].
    intros ?? _ _. apply suffixed_inj.
    - intros x (n & -> & Hn)%list_elem_of_fmap.
      apply Hall. apply elem_of_seq in Hn. lia. }
  apply submseteq_length in Hsub.
  by rewrite length_fmap, length_seq in Hsub.
Qed.

Lemma count_loop_spec labels k fuel count :
  (∀ n, n < count → BaseSelector.suffixed k n ∈ labels) →
  count + fuel = S (length labels) →
  ∃ N, while (λ c, bool_decide (BaseSelector.suffixed k c ∈ labels)) S
         fuel count = Some N ∧
       (BaseSelector.suffixed k N ∉ labels) ∧
       (∀ n, n < N → BaseSelector.suffixed k n ∈ labels).
Proof.
  revert count. induction fuel as [|fuel IH]; intros count Hall Hsum.
  - apply taken_bound in Hall. lia.
  - simpl. destruct (decide (BaseSelector.suffixed k count ∈ labels)) as [Hin|Hin].
    + rewrite bool_decide_eq_true_2 by done.
      assert (∀ n, n < S count → BaseSelector.suffixed k n ∈ labels) as Hall'.
      { intros n Hn. destruct (decide (n = count)) as [->|]; [done|].
        apply Hall. lia. }
      destruct fuel as [|fuel'].
      * apply taken_bound in Hall'. lia.
      * apply IH; [done|lia].
    + rewrite bool_decide_eq_false_2 by done. by exists count.
Qed.

(** The search for a free label never runs out of fuel, and finds the
    least count whose label is free. *)
Lemma first_free_spec labels k :
  ∃ N, BaseSelector.first_free labels k = Some N ∧
       (BaseSelector.suffixed k N ∉ labels) ∧
       (∀ n, n < N → BaseSelector.suffixed k n ∈ labels).
Proof. apply count_loop_spec; [lia|done]. Qed.

Lemma conflicts_test labels items k (v : Obj) :
  bool_decide (k ∈ labels) && negb (bool_decide (v ∈ items)) = true ↔
  conflicts labels items (k, v).
Proof.
  unfold conflicts. simpl.
  rewrite andb_true_iff, negb_true_iff, bool_decide_eq_true,
    bool_decide_eq_false. done.
Qed.

(** The loop of [add] returns normally in two cases only: no entry is
    renamed, or the one entry renamed is the last one. *)
Lemma add_loop_inv labels items todo (opts opts' : odict.t Obj) :
  BaseSelector.add_loop labels items todo opts false = Ok opts' →
  (Forall (λ kv, ¬ conflicts labels items kv) todo ∧ opts' = opts) ∨
  (∃ pre k v N,
      todo = pre ++ [(k, v)] ∧
      Forall (λ kv, ¬ conflicts labels items kv) pre ∧
      conflicts labels items (k, v) ∧
      BaseSelector.first_free labels k = Some N ∧
      opts' = odict.set (BaseSelector.suffixed k N) v (odict.del k opts)).
Proof.
  induction todo as [|[k v] todo IH]; simpl.
  - intros [= <-]. left. by split.
  - destruct (bool_decide (k ∈ labels) && negb (bool_decide (v ∈ items)))
      eqn:Htest.
    + apply conflicts_test in Htest. unfold odict.pop.
      destruct (odict.get k opts); [|done].
      destruct (BaseSelector.first_free labels k) as [N|] eqn:HN; [|done].
      destruct todo as [|[k' v'] todo]; simpl; [|done].
      intros [= <-]. right. exists [], k, v, N. by split_and!.
    + assert (¬ conflicts labels items (k, v)) as Hno.
      { rewrite <- conflicts_test. by rewrite Htest. }
      intros [[Hall ->]|(pre & k1 & v1 & N & -> & Hpre & Hc & HN & ->)]%IH.
      * left. split; [by constructor|done].
      * right. exists ((k, v) :: pre), k1, v1, N.
        split_and!; try done. by constructor.
Qed.

Lemma add_loop_no_conflicts labels items todo (opts : odict.t Obj) :
  Forall (λ kv, ¬ conflicts labels items kv) todo →
  BaseSelector.add_loop labels items todo opts false = Ok opts.
Proof.
  induction 1 as [|[k v] todo Hno Hall IH]; simpl; [done|].
  rewrite <- conflicts_test in Hno. apply not_true_is_false in Hno.
  by rewrite Hno.
Qed.

(** The loop returns when the only entry to rename comes last ... *)
Lemma add_loop_last labels items pre k (v : Obj) (opts : odict.t Obj) :
  Forall (λ kv, ¬ conflicts labels items kv) pre →
  conflicts labels items (k, v) →
  k ∈ odict.keys opts →
  ∃ N, BaseSelector.first_free labels k = Some N ∧
       BaseSelector.add_loop labels items (pre ++ [(k, v)]) opts false =
         Ok (odict.set (BaseSelector.suffixed k N) v (odict.del k opts)).
Proof.
  intros Hpre Hc Hk. destruct (first_free_spec labels k) as (N & HN & _).
  exists N. split; [done|].
  induction Hpre as [|[k1 v1] pre Hno Hall IH]; simpl.
  - apply conflicts_test in Hc. rewrite Hc. unfold odict.pop.
    destruct (odict.get k opts) eqn:Hget.
    + by rewrite HN.
    + by apply odict_get_None in Hget.
  - rewrite <- conflicts_test in Hno. apply not_true_is_false in Hno.
    by rewrite Hno.
Qed.

(** ... and raises as soon as an entry follows a renamed one. *)
Lemma add_loop_raises labels items pre k (v : Obj) kv' rest (opts : odict.t Obj) :
  Forall (λ kv, ¬ conflicts labels items kv) pre →
  conflicts labels items (k, v) →
  k ∈ odict.keys opts →
  BaseSelector.add_loop labels items (pre ++ (k, v) :: kv' :: rest) opts false =
    Raise RuntimeError.
Proof.
  intros Hpre Hc Hk. destruct (first_free_spec labels k) as (N & HN & _).
  induction Hpre as [|[k1 v1] pre Hno Hall IH]; simpl.
  - apply conflicts_test in Hc. rewrite Hc. unfold odict.pop.
    destruct (odict.get k opts) eqn:Hget.
    + rewrite HN. by destruct kv'.
    + by apply odict_get_None in Hget.
  - rewrite <- conflicts_test in Hno. apply not_true_is_false in Hno.
    by rewrite Hno.
Qed.

Lemma odict_get_reverse (k : string) (d : odict.t Obj) :
  odict.wf d → odict.get k (reverse d) = odict.get k d.
Proof.
  intros Hwf.
  assert (odict.wf (reverse d)) as Hwf'.
  { unfold odict.wf, odict.keys. by rewrite fmap_reverse, reverse_Permutation. }
  destruct (odict.get k d) as [v|] eqn:Hget.
  - apply odict_elem_of_get; [done|].
    apply elem_of_reverse. by apply odict_get_Some.
  - apply odict_get_None. apply odict_get_None in Hget.
    unfold odict.keys in *. by rewrite fmap_reverse, elem_of_reverse.
Qed.

Lemma create_options_wf (new : PyVal Obj) (created : odict.t Obj) :
  BaseSelector._create_options preprocess new = Ok created →
  odict.wf created.
Proof.
  unfold BaseSelector._create_options.
  destruct (BaseSelector.map_named _); [|done..].
  intros [= <-]. apply odict_wf_of_pairs.
Qed.

(** What [add] does when it returns. *)
Lemma add_inv (new : PyVal Obj) (w w' : Widget.t Obj) :
  BaseSelector.add preprocess new w = Ok (tt, w') →
  ∃ created options,
    BaseSelector._create_options preprocess new = Ok created ∧
    BaseSelector.add_loop (Widget.labels w) (Widget.values w)
      created created false = Ok options ∧
    w' = {| Widget.options := odict.update (Widget.options w) options;
            Widget.value := take 1 (odict.values options) |}.
Proof.
  unfold BaseSelector.add, BaseSelector.labels, BaseSelector.items. run_m.
  destruct (BaseSelector._create_options preprocess new) as [created| |];
    [|done..].
  destruct (BaseSelector.add_loop _ _ _ _ _) as [options| |] eqn:Hloop;
    [|done..].
  intros [= <-]. by exists created, options.
Qed.

(** When [add] returns, every entry of the options it created
    from its argument (one entry per name, holding the last item of
    that name) whose label is already among the labels of the widget
    and whose value is not among its items is stored under
    [label_N], where [N] is the least number for which that label is
    not among the labels; and the labels of the options stay pairwise
    distinct. *)
Lemma add_renames (new : PyVal Obj) (w w' : Widget.t Obj) :
  odict.wf (Widget.options w) →
  BaseSelector.add preprocess new w = Ok (tt, w') →
  ∃ created,
    BaseSelector._create_options preprocess new = Ok created ∧
    (∀ k v, (k, v) ∈ created →
            k ∈ Widget.labels w → v ∉ Widget.values w →
       ∃ N, (BaseSelector.suffixed k N ∉ Widget.labels w) ∧
            (∀ n, n < N → BaseSelector.suffixed k n ∈ Widget.labels w) ∧
            odict.get (BaseSelector.suffixed k N) (Widget.options w') = Some v) ∧
    odict.wf (Widget.options w').
Proof.
  intros Hwf (created & options & Hc & Hloop & ->)%add_inv.
  exists created. split; [done|]. simpl.
  split; [|by apply odict_wf_update].
  intros k v Hin Hk Hv.
  pose proof (create_options_wf _ _ Hc) as Hcwf.
  apply add_loop_inv in Hloop
    as [[Hall ->]|(pre & k1 & v1 & N & Hcr & Hpre & Hconf & HN & ->)].
  - rewrite Forall_forall in Hall. by destruct (Hall (k, v) Hin).
  - assert ((k, v) = (k1, v1)) as [= <- <-].
    { rewrite Hcr in Hin. apply elem_of_app in Hin as [Hin|Hin].
      - rewrite Forall_forall in Hpre. by destruct (Hpre (k, v) Hin).
      - by apply list_elem_of_singleton in Hin. }
    destruct (first_free_spec (Widget.labels w) k) as (N' & HN' & Hfree & Hmin).
    assert (N' = N) as -> by congruence.
    exists N. split_and!; [done..|].
    rewrite odict_get_update, odict_get_reverse.
    + rewrite odict_get_set. by rewrite decide_True.
    + by apply odict_wf_set, odict_wf_del.
Qed.

(** [add] does return when no entry but the last has to be renamed. *)
Lemma add_returns (new : PyVal Obj) (created : odict.t Obj) (w : Widget.t Obj) :
  BaseSelector._create_options preprocess new = Ok created →
  Forall (λ kv, ¬ conflicts (Widget.labels w) (Widget.values w) kv)
    (removelast created) →
  ∃ w', BaseSelector.add preprocess new w = Ok (tt, w').
Proof.
  intros Hc Hall.
  unfold BaseSelector.add, BaseSelector.labels, BaseSelector.items. run_m.
  rewrite Hc.
  destruct (decide (Forall (λ kv, ¬ conflicts (Widget.labels w)
              (Widget.values w) kv) created)) as [Hno|Hsome].
  - rewrite add_loop_no_conflicts by done. by eexists.
  - destruct (List.exists_last (l:=created)) as (pre & [k v] & Hcr).
    { intros ->. by apply Hsome. }
    rewrite Hcr in Hall, Hsome. rewrite removelast_last in Hall.
    destruct (add_loop_last (Widget.labels w) (Widget.values w)
                pre k v created Hall) as (N & _ & Hloop).
    + destruct (decide (conflicts (Widget.labels w) (Widget.values w) (k, v)))
        as [|Hno]; [done|].
      destruct Hsome. apply Forall_app. split; [done|]. by apply Forall_singleton.
    + rewrite Hcr at 1. unfold odict.keys. rewrite fmap_app.
      apply elem_of_app. right. simpl. apply list_elem_of_singleton. done.
    + rewrite <- Hcr in Hloop. rewrite Hloop. by eexists.
Qed.

(** X1: [add] raises [RuntimeError] when an entry that has to be
    renamed is followed by another entry: the dictionary changes while
    it is iterated. *)
Lemma add_raises (new : PyVal Obj) pre k (v : Obj) kv' rest (w : Widget.t Obj) :
  BaseSelector._create_options preprocess new =
    Ok (pre ++ (k, v) :: kv' :: rest) →
  Forall (λ kv, ¬ conflicts (Widget.labels w) (Widget.values w) kv) pre →
  conflicts (Widget.labels w) (Widget.values w) (k, v) →
  BaseSelector.add preprocess new w = Raise RuntimeError.
Proof.
  intros Hc Hpre Hconf.
  unfold BaseSelector.add, BaseSelector.labels, BaseSelector.items. run_m.
  rewrite Hc. rewrite add_loop_raises; try done.
  unfold odict.keys. rewrite fmap_app. apply elem_of_app. right.
  simpl. apply elem_of_cons. by left.
Qed.
End add_facts.

(** ** expand_nested *)
Section expand_facts.
Context {Obj : Type} `{Catalog Obj} `{Countable Obj}.

(** The first position at which a list satisfies a predicate, as the
    generator expressions of [expand_nested] find it. *)
Lemma next_first {A} (P : A → Prop) `{!∀ x, Decision (P x)}
    (pre : list A) (x : A) (post : list A) :
  Forall (λ y, ¬ P y) pre → P x →
  next (filter P (pre ++ x :: post)) = Ok x.
Proof.
  intros Hpre Hx. induction Hpre as [|y pre Hy _ IH]; simpl.
  - by rewrite filter_cons_True.
  - by rewrite filter_cons_False.
Qed.

Lemma next_fmap {A B} (f : A → B) (l : list A) (x : A) :
  next l = Ok x → next (f <$> l) = Ok (f x).
Proof. destruct l; [done|]. by intros [= ->]. Qed.

Lemma filter_none {A} (P : A → Prop) `{!∀ x, Decision (P x)} (l : list A) :
  Forall (λ y, ¬ P y) l → filter P l = [].
Proof.
  intros Hl. induction Hl as [|y l Hy _ IH]; [done|].
  by rewrite filter_cons_False.
Qed.

Lemma next_index_from {A} (P : A → Prop) `{!∀ x, Decision (P x)}
    (pre : list A) (x : A) (post : list A) (n : nat) :
  Forall (λ y, ¬ P y) pre → P x →
  next (fst <$> filter (λ iy, P iy.2)
          (zip (seq n (length (pre ++ x :: post))) (pre ++ x :: post))) =
    Ok (n + length pre).
Proof.
  intros Hpre Hx. revert n.
  induction Hpre as [|y pre Hy _ IH]; intros n; simpl.
  - rewrite filter_cons_True by done. simpl. f_equal. lia.
  - rewrite filter_cons_False by done. rewrite IH. f_equal. lia.
Qed.

(** Inserting the children one after the other puts them, in order,
    right behind the first [index + 1] elements. *)
Lemma insert_children {A B} (lab : B → A) (index : nat) (post : list A)
    (cs : list B) (n : nat) (acc : list A) :
  length acc = index + n + 1 →
  foldl (λ old ic, list_insert_at (index + ic.1 + 1) (lab ic.2) old)
    (acc ++ post) (zip (seq n (length cs)) cs) =
  acc ++ (lab <$> cs) ++ post.
Proof.
  revert n acc. induction cs as [|c cs IH]; intros n acc Hlen; simpl; [done|].
  unfold list_insert_at at 2.
  rewrite take_app_length', drop_app_length' by done.
  replace (acc ++ lab c :: post) with ((acc ++ [lab c]) ++ post)
    by by rewrite <- app_assoc.
  rewrite IH.
  - by rewrite <- app_assoc.
  - rewrite length_app. simpl. lia.
Qed.

Lemma expand_nested_empty (w : Widget.t Obj) :
  CatSelector.expand_nested [] w = Ok (tt, w).
Proof. done. Qed.

(** A selection whose first element is not among the items makes the
    generator expression run dry. *)
Lemma expand_nested_missing (w : Widget.t Obj) got rest :
  got ∉ Widget.values w →
  CatSelector.expand_nested (got :: rest) w = Raise StopIteration.
Proof.
  intros Hgot. unfold CatSelector.expand_nested. run_m.
  rewrite (filter_none (λ kv : string * Obj, kv.2 = got)); [reflexivity|].
  apply Forall_forall. intros [k v] Hin Hv. simpl in Hv. subst v.
  apply Hgot. apply list_elem_of_fmap. by exists (k, got).
Qed.

(** With [got] first found at label [label], the children are put
    behind it and the list is made a dictionary again. *)
Lemma expand_nested_found (w : Widget.t Obj) pre label got post rest :
  Widget.options w = pre ++ (label, got) :: post →
  Forall (λ kv, kv.2 ≠ got) pre →
  CatSelector.expand_nested (got :: rest) w =
    Ok (tt, {| Widget.options :=
                 odict.of_pairs
                   (pre ++ (label, got) ::
                      ((λ c, (nested_label label c, c)) <$>
                         CatSelector.get_children got) ++ post);
               Widget.value := Widget.value w |}).
Proof.
  intros Hopts Hpre.
  unfold CatSelector.expand_nested. run_m.
  assert (Forall (λ y : string * Obj, ¬ y.2 = got) pre) as Hpre' by done.
  rewrite Hopts.
  rewrite (next_fmap fst _ (label, got))
    by (by apply (next_first (λ kv, kv.2 = got))).
  unfold enumerate.
  pose proof (next_index_from (λ kv : string * Obj, kv.2 = got)
                pre (label, got) post 0 Hpre' eq_refl) as Hidx.
  cbv beta in Hidx. rewrite Hidx.
  simpl. unfold Widget.set_options. simpl. do 4 f_equal.
  set (lab := λ c : Obj, (nested_label label c, c)).
  replace (pre ++ (label, got) :: post) with ((pre ++ [(label, got)]) ++ post)
    by by rewrite <- app_assoc.
  rewrite (insert_children lab (length pre) post).
  2:{ rewrite length_app. simpl. lia. }
  by rewrite <- app_assoc.
Qed.

Lemma split_first {A} (P : A → Prop) `{!∀ x, Decision (P x)} (l : list A) x :
  x ∈ l → P x →
  ∃ pre y post, l = pre ++ y :: post ∧ Forall (λ z, ¬ P z) pre ∧ P y.
Proof.
  intros Hin HP. induction l as [|z l IH]; [by apply elem_of_nil in Hin|].
  destruct (decide (P z)) as [Hz|Hz].
  - exists [], z, l. by split_and!.
  - apply elem_of_cons in Hin as [->|Hin]; [done|].
    destruct (IH Hin) as (pre & y & post & -> & Hpre & Hy).
    exists (z :: pre), y, post. split_and!; [done| |done]. by constructor.
Qed.

(** [expand_nested] returns, and leaves the selection alone, when the
    first selected object is among the items. *)
Lemma expand_nested_returns (w : Widget.t Obj) got rest :
  got ∈ Widget.values w →
  ∃ w', CatSelector.expand_nested (got :: rest) w = Ok (tt, w') ∧
        Widget.value w' = Widget.value w.
Proof.
  intros ([k v] & Hv & Hin)%list_elem_of_fmap. simpl in Hv. subst v.
  destruct (split_first (λ kv : string * Obj, kv.2 = got) _ _ Hin eq_refl)
    as (pre & [label got'] & post & Hopts & Hpre & Hgot).
  simpl in Hgot. subst got'.
  rewrite (expand_nested_found w pre label got post rest Hopts Hpre).
  by eexists.
Qed.

(** C2: when the first selected catalog [got] stands first at label
    [label] in the options, and the labels of its child catalogs are
    pairwise distinct and not yet in use, [expand_nested] puts the
    children right behind [got], one per child in the order of the
    parent's entries, each under the label built from the parent's
    label; all options that were there keep label, value and order. *)
Theorem expand_nested_inserts (w : Widget.t Obj) pre label got post rest :
  odict.wf (Widget.options w) →
  Widget.options w = pre ++ (label, got) :: post →
  Forall (λ kv, kv.2 ≠ got) pre →
  NoDup (nested_label label <$> CatSelector.get_children got) →
  (∀ c, c ∈ CatSelector.get_children got →
        nested_label label c ∉ Widget.labels w) →
  CatSelector.expand_nested (got :: rest) w =
    Ok (tt, {| Widget.options :=
                 pre ++ (label, got) ::
                   ((λ c, (nested_label label c, c)) <$>
                      CatSelector.get_children got) ++ post;
               Widget.value := Widget.value w |}).
Proof.
  intros Hwf Hopts Hpre Hnd Hfresh.
  rewrite (expand_nested_found w pre label got post rest Hopts Hpre).
  do 3 f_equal.
  set (lab := λ c : Obj, (nested_label label c, c)).
  apply odict_of_pairs_id.
  unfold odict.wf, odict.keys in *. rewrite Hopts in Hwf.
  assert ((pre ++ (label, got) :: (lab <$> CatSelector.get_children got)
             ++ post).*1 ≡ₚ
          (lab <$> CatSelector.get_children got).*1
            ++ (pre ++ (label, got) :: post).*1) as ->.
  { rewrite !fmap_app, !fmap_cons, !fmap_app.
    rewrite (Permutation_app_comm _ (pre.*1 ++ _)).
    rewrite <- app_assoc. simpl. by rewrite (Permutation_app_comm post.*1). }
  apply NoDup_app. split_and!.
  - by rewrite <- list_fmap_compose.
  - intros l (c & -> & Hc)%list_elem_of_fmap. simpl in Hc.
    apply list_elem_of_fmap in Hc as (c' & -> & Hc'). simpl.
    specialize (Hfresh c' Hc'). unfold Widget.labels, odict.keys in Hfresh.
    by rewrite Hopts in Hfresh.
  - done.
Qed.
End expand_facts.

(** ** collapse_nested and remove_selected *)
Section collapse_facts.
Context {Obj : Type} `{Catalog Obj} `{Countable Obj}.
Implicit Types (st : @CatSelector.Collapse Obj _ _) (parents : gset Obj)
  (old cats : list Obj) (o p : Obj).

Lemma collapse_cond_true st :
  CatSelector.collapse_cond st = true →
  (∃ p, p ∈ CatSelector.parents_to_remove st) ∧
  (0 < CatSelector.nestedness st)%Z.
Proof.
  unfold CatSelector.collapse_cond.
  rewrite andb_true_iff, !bool_decide_eq_true.
  intros [Hsize Hn]. split; [|done]. by apply size_pos_elem_of.
Qed.

Lemma collapse_cond_false st :
  CatSelector.collapse_cond st = false →
  CatSelector.parents_to_remove st = ∅ ∨ (CatSelector.nestedness st ≤ 0)%Z.
Proof.
  unfold CatSelector.collapse_cond.
  rewrite andb_false_iff, !bool_decide_eq_false.
  intros [Hsize|Hn]; [left|right; lia].
  apply leibniz_equiv, size_empty_iff. lia.
Qed.

(** Every pass lowers [nestedness] by one, and a pass is only made
    while it is positive. *)
Lemma collapse_runs parents (m : nat) st :
  Z.to_nat (CatSelector.nestedness st) = m →
  ∃ n st', runs CatSelector.collapse_cond (CatSelector.collapse_body parents)
             n st st' ∧ n ≤ m.
Proof.
  revert st. induction m as [|m IH]; intros st Hm.
  - exists 0, st. split; [|done]. constructor.
    unfold CatSelector.collapse_cond.
    rewrite andb_false_iff, !bool_decide_eq_false. right. lia.
  - destruct (CatSelector.collapse_cond st) eqn:Hcond.
    + destruct (IH (CatSelector.collapse_body parents st)) as (n & st' & Hr & Hn).
      { simpl. lia. }
      exists (S n), st'. split; [by constructor|lia].
    + exists 0, st. split; [by constructor|lia].
Qed.

(** C8: the loop of [collapse_nested] makes at most [max_nestedness]
    passes, whatever the parent links between the options look like,
    and so [collapse_nested] returns. *)
Theorem collapse_nested_terminates (w : Widget.t Obj) (cats : list Obj)
    (parents : gset Obj) (max_nestedness : Z) :
  (0 < max_nestedness)%Z →
  (∃ n st,
      runs CatSelector.collapse_cond (CatSelector.collapse_body parents) n
        (CatSelector.collapse_init (Widget.values w) cats max_nestedness) st ∧
      (Z.of_nat n ≤ max_nestedness)%Z) ∧
  (∃ w', CatSelector.collapse_nested cats max_nestedness w = Ok (tt, w')).
Proof.
  intros Hpos. split.
  - destruct (collapse_runs parents (Z.to_nat max_nestedness)
                (CatSelector.collapse_init (Widget.values w) cats max_nestedness))
      as (n & st & Hr & Hn); [done|].
    exists n, st. split; [done|lia].
  - unfold CatSelector.collapse_nested. run_m.
    match goal with
    | |- context [while _ (CatSelector.collapse_body ?ps) _ ?init] =>
        destruct (collapse_runs ps (Z.to_nat max_nestedness) init)
          as (n & st & Hr & Hn); [done|]
    end.
    rewrite (runs_while _ _ _ _ _ _ Hr Hn).
    unfold BaseSelector.remove, BaseSelector.options. run_m. by eexists.
Qed.

Lemma cat_in_spec (ps : gset Obj) o :
  CatSelector.cat_in ps o ↔ ∃ p, cat o = Some p ∧ p ∈ ps.
Proof.
  unfold CatSelector.cat_in. destruct (cat o) as [p|].
  - split; [by exists p|]. by intros (? & [= <-] & ?).
  - split; [done|]. by intros (? & ? & _).
Qed.

Lemma nested_under_inv old cats n o :
  nested_under old cats n o →
  ∃ p, o ∈ old ∧ cat o = Some p ∧
       (p ∈ cats ∨ ∃ m, n = S m ∧ nested_under old cats m p).
Proof.
  intros Hn. inversion Hn as [o' p Ho Hc Hp|m o' p Ho Hc Hm]; subst.
  - exists p. by split_and!; [..|left].
  - exists p. split_and!; [done..|]. right. by exists m.
Qed.

Lemma nested_under_pos old cats n o : nested_under old cats n o → 1 ≤ n.
Proof. destruct 1; lia. Qed.

(** The set [parents] of [collapse_nested]. *)
Lemma elem_of_parents old p :
  p ∈@{gset Obj} list_to_set (omap cat (filter (λ c, is_Some (cat c)) old)) ↔
  ∃ o, o ∈ old ∧ cat o = Some p.
Proof.
  rewrite elem_of_list_to_set, list_elem_of_omap.
  split; intros (o & Ho & Hc).
  - apply list_elem_of_filter in Ho as [_ Ho]. by exists o.
  - exists o. split; [|done]. apply list_elem_of_filter. by rewrite Hc.
Qed.

Lemma collapse_inv_init old cats max_nestedness :
  collapse_inv old cats max_nestedness 0
    (CatSelector.collapse_init old cats max_nestedness).
Proof.
  split; simpl.
  - intros o. split; [by intros ?%elem_of_nil|]. intros (n & ? & _). lia.
  - intros o. rewrite list_elem_of_filter. split.
    + intros [? ?]. split; [done|]. apply not_elem_of_nil.
    + by intros [[? ?] _].
  - intros p o Hp. by apply elem_of_empty in Hp.
  - intros p Hp. left. by apply elem_of_list_to_set in Hp.
  - intros p o [Hp|Hp] _ _; [|by apply elem_of_nil in Hp].
    left. by apply elem_of_list_to_set.
  - lia.
  - by left.
Qed.

(** A child of a catalog that is being handled, or has been handled,
    is among the children after the pass. *)
Lemma collapse_body_collects old cats max_nestedness k parents st p o :
  collapse_inv old cats max_nestedness k st →
  p ∈ CatSelector.parents_to_remove st ∨ p ∈ CatSelector.removed st →
  o ∈ old → cat o = Some p →
  o ∈ CatSelector.children (CatSelector.collapse_body parents st).
Proof.
  intros Hinv Hp Ho Hc. simpl. apply elem_of_app.
  destruct (decide (o ∈ CatSelector.children st)) as [|Hnot]; [by left|].
  destruct Hp as [Hp|Hp]; [|left; by eapply inv_removed].
  right. apply list_elem_of_filter. split.
  - apply cat_in_spec. by exists p.
  - apply (inv_nested _ _ _ _ _ Hinv). by rewrite Hc.
Qed.

Lemma collapse_inv_step old cats max_nestedness k parents st :
  (∀ p, p ∈ parents ↔ ∃ o, o ∈ old ∧ cat o = Some p) →
  collapse_inv old cats max_nestedness k st →
  CatSelector.collapse_cond st = true →
  collapse_inv old cats max_nestedness (S k)
    (CatSelector.collapse_body parents st).
Proof.
  intros Hparents Hinv [_ Hpos]%collapse_cond_true.
  assert (∀ p o, p ∈ cats ∨ p ∈ CatSelector.children st →
                 o ∈ old → cat o = Some p →
                 o ∈ CatSelector.children (CatSelector.collapse_body parents st))
    as Hcollect.
  { intros p o Hp Ho Hc.
    eapply collapse_body_collects; [done| |done..].
    by eapply inv_covered. }
  split.
  - intros o. split.
    + simpl. intros [Hin|Hin]%elem_of_app.
      * apply (inv_children _ _ _ _ _ Hinv) in Hin as (n & ? & ?).
        exists n. split; [lia|done].
      * apply list_elem_of_filter in Hin as [(p & Hc & Hp)%cat_in_spec Ho].
        apply (inv_nested _ _ _ _ _ Hinv) in Ho as [[Ho _] _].
        apply (inv_todo _ _ _ _ _ Hinv) in Hp as [Hp|Hp].
        -- exists 1. split; [lia|]. by eapply nested_child.
        -- apply (inv_children _ _ _ _ _ Hinv) in Hp as (n & ? & ?).
           exists (S n). split; [lia|]. by eapply nested_deeper.
    + intros (n & Hn & Hnest).
      apply nested_under_inv in Hnest as (p & Ho & Hc & [Hp|(m & -> & Hm)]).
      * apply (Hcollect p); auto.
      * apply (Hcollect p); [|done..]. right.
        apply (inv_children _ _ _ _ _ Hinv). exists m. split; [|done].
        apply nested_under_pos in Hm. lia.
  - intros o. cbn [CatSelector.nested CatSelector.collapse_body].
    rewrite list_elem_of_filter, (inv_nested _ _ _ _ _ Hinv).
    cbn [CatSelector.children CatSelector.collapse_body].
    rewrite !not_elem_of_app. tauto.
  - intros p o Hp Ho Hc. eapply collapse_body_collects; [done| |done..].
    simpl in Hp. apply elem_of_union in Hp. tauto.
  - intros p Hp. right. simpl in Hp.
    by apply elem_of_list_to_set, list_elem_of_filter in Hp as [_ Hp].
  - intros p o Hp Ho Hc.
    cbn [CatSelector.parents_to_remove CatSelector.removed
         CatSelector.collapse_body].
    destruct (decide (p ∈ CatSelector.removed st ∪ CatSelector.parents_to_remove st))
      as [|Hnot]; [by right|].
    left. apply elem_of_list_to_set, list_elem_of_filter. split.
    + apply elem_of_difference. split; [|done].
      apply Hparents. by exists o.
    + destruct Hp as [Hp|Hp]; [|done].
      destruct Hnot. apply elem_of_union.
      destruct (inv_covered _ _ _ _ _ Hinv p o) as [?|?]; auto.
  - simpl. rewrite (inv_nestedness _ _ _ _ _ Hinv). lia.
  - right. rewrite (inv_nestedness _ _ _ _ _ Hinv) in Hpos. lia.
Qed.

Lemma collapse_inv_runs old cats max_nestedness parents n k st st' :
  (∀ p, p ∈ parents ↔ ∃ o, o ∈ old ∧ cat o = Some p) →
  runs CatSelector.collapse_cond (CatSelector.collapse_body parents) n st st' →
  collapse_inv old cats max_nestedness k st →
  collapse_inv old cats max_nestedness (k + n) st'.
Proof.
  intros Hparents Hr. revert k.
  induction Hr as [st Hc|n st st' Hc Hr IH]; intros k Hinv.
  - by rewrite Nat.add_0_r.
  - replace (k + S n) with (S k + n) by lia.
    apply IH. by apply collapse_inv_step.
Qed.

(** When the loop is left, the children are the option values nested
    at most [max_nestedness] levels under [cats]. *)
Lemma collapse_inv_exit old cats max_nestedness k st o :
  (0 < max_nestedness)%Z →
  collapse_inv old cats max_nestedness k st →
  CatSelector.collapse_cond st = false →
  o ∈ CatSelector.children st ↔
  ∃ n, (1 ≤ n ∧ n ≤ Z.to_nat max_nestedness) ∧ nested_under old cats n o.
Proof.
  intros Hmax Hinv Hexit. rewrite (inv_children _ _ _ _ _ Hinv).
  pose proof (inv_passes _ _ _ _ _ Hinv) as Hk.
  pose proof (inv_nestedness _ _ _ _ _ Hinv) as Hnest.
  split; intros (n & Hn & Hunder).
  - exists n. split; [lia|done].
  - apply collapse_cond_false in Hexit as [Hempty|Hzero].
    + apply (inv_children _ _ _ _ _ Hinv). clear Hn.
      induction Hunder as [o p Ho Hc Hp|n o p Ho Hc Hunder IH].
      * destruct (inv_covered _ _ _ _ _ Hinv p o) as [Hin|Hin]; auto.
        -- rewrite Hempty in Hin. by apply elem_of_empty in Hin.
        -- by eapply inv_removed.
      * destruct (inv_covered _ _ _ _ _ Hinv p o) as [Hin|Hin]; auto.
        -- rewrite Hempty in Hin. by apply elem_of_empty in Hin.
        -- by eapply inv_removed.
    + exists n. split; [lia|done].
Qed.

Lemma runs_exits {St} (cond : St → bool) (body : St → St) n s s' :
  runs cond body n s s' → cond s' = false.
Proof. induction 1; done. Qed.

Lemma py_in_objects (v : Obj) (os : list Obj) :
  py_in v (PObj <$> os) ↔ v ∈ os.
Proof.
  rewrite py_in_spec, list_elem_of_fmap. split.
  - by intros (o & [= ->] & ?).
  - intros ?. by exists v.
Qed.

(** [collapse_nested] removes the options nested under [cats], down to
    [max_nestedness] levels, and nothing else. *)
Lemma collapse_nested_spec (w : Widget.t Obj) cats (max_nestedness : Z) :
  (0 < max_nestedness)%Z →
  ∃ w', CatSelector.collapse_nested cats max_nestedness w = Ok (tt, w') ∧
        Widget.value w' = Widget.value w ∧
        Widget.options w' `sublist_of` Widget.options w ∧
        (∀ k v, (k, v) ∈ Widget.options w' ↔
                (k, v) ∈ Widget.options w ∧
                ¬ ∃ n, (1 ≤ n ∧ n ≤ Z.to_nat max_nestedness) ∧
                       nested_under (Widget.values w) cats n v).
Proof.
  intros Hmax. unfold CatSelector.collapse_nested. run_m.
  set (old := odict.values (Widget.options w)).
  set (parents := list_to_set (omap cat (filter (λ c, is_Some (cat c)) old))).
  destruct (collapse_runs parents (Z.to_nat max_nestedness)
              (CatSelector.collapse_init old cats max_nestedness))
    as (n & st & Hr & Hn); [done|].
  rewrite (runs_while _ _ _ _ _ _ Hr Hn).
  pose proof (collapse_inv_runs old cats max_nestedness parents n 0 _ _
                (elem_of_parents old) Hr
                (collapse_inv_init old cats max_nestedness)) as Hinv.
  pose proof (runs_exits _ _ _ _ _ Hr) as Hexit.
  unfold BaseSelector.remove, BaseSelector.options. run_m.
  eexists. split; [reflexivity|]. simpl. split_and!.
  - done.
  - apply sublist_filter.
  - intros k v. rewrite list_elem_of_filter. simpl.
    rewrite py_in_objects.
    rewrite (collapse_inv_exit old cats max_nestedness n st v Hmax Hinv Hexit).
    tauto.
Qed.

End collapse_facts.

(** ** The selection callback *)
Section callback_facts.
Context {Obj World : Type} `{Catalog Obj} `{Countable Obj}.
Implicit Types (s : Selector.t Obj World) (new : list Obj).

Local Arguments CatSelector.expand_nested : simpl never.

Lemma cat_setup_inv s0 s :
  CatSelector.setup s0 = Ok (tt, s) →
  s = Selector.make (Selector.widget s0) (Selector.done_callback s0)
        (Some false)
        [ (CatSelector_remove_selected, clicks);
          (CatSelector_expand_nested, value);
          (CatSelector_callback, value) ]
        (Selector.world s0).
Proof. unfold CatSelector.setup. run_m. by intros [= <-]. Qed.

Lemma source_setup_inv s0 s :
  SourceSelector.setup s0 = Ok (tt, s) →
  s = Selector.make (Selector.widget s0) (Selector.done_callback s0)
        (Selector.remove_button s0)
        [ (SourceSelector_callback, value) ]
        (Selector.world s0).
Proof. unfold SourceSelector.setup. run_m. by intros [= <-]. Qed.

(** [setup] makes a selector ready, and the callback of a catalog
    selector leaves it so. *)
Lemma cat_setup_ready s0 s : CatSelector.setup s0 = Ok (tt, s) → cat_ready s.
Proof. intros ->%cat_setup_inv. split; [by eexists|done]. Qed.

Lemma source_setup_ready s0 s :
  SourceSelector.setup s0 = Ok (tt, s) → source_ready s.
Proof. by intros ->%source_setup_inv. Qed.

Lemma callback_keeps_ready new s s' :
  cat_ready s → CatSelector.callback new s = Ok (tt, s') → cat_ready s'.
Proof.
  intros [[b Hb] Hws]. unfold CatSelector.callback. run_m. rewrite Hb.
  destruct (Selector.done_callback s); simpl; intros [= <-];
    (split; [by eexists|done]).
Qed.
End callback_facts.

(** ** The options stay a dictionary *)
Section wf_facts.
Context {Obj : Type} `{Catalog Obj} `{Countable Obj}.
Variable preprocess : option (PyVal Obj → PyVal Obj).

Lemma odict_wf_sublist (d d' : odict.t Obj) :
  d' `sublist_of` d → odict.wf d → odict.wf d'.
Proof.
  unfold odict.wf, odict.keys. intros Hsub Hnd.
  eapply sublist_NoDup; [exact Hnd|]. by apply fmap_sublist.
Qed.

Lemma set_items_wf (new : PyVal Obj) (w w' : Widget.t Obj) :
  odict.wf (Widget.options w) →
  BaseSelector.set_items preprocess new w = Ok (tt, w') →
  odict.wf (Widget.options w').
Proof.
  intros Hwf Hset.
  assert (new = PNone ∨
          BaseSelector.set_options preprocess new w = Ok (tt, w')) as [->|Hopt].
  { destruct new; auto. }
  - by injection Hset as <-.
  - apply set_options_inv in Hopt as [Hc _].
    by apply (create_options_wf preprocess new).
Qed.

Lemma add_wf (new : PyVal Obj) (w w' : Widget.t Obj) :
  odict.wf (Widget.options w) →
  BaseSelector.add preprocess new w = Ok (tt, w') →
  odict.wf (Widget.options w').
Proof.
  intros Hwf (created & options & _ & _ & ->)%add_inv. simpl.
  by apply odict_wf_update.
Qed.

Lemma remove_wf (items : PyVal Obj) (w w' : Widget.t Obj) :
  odict.wf (Widget.options w) →
  BaseSelector.remove items w = Ok (tt, w') →
  odict.wf (Widget.options w').
Proof.
  intros Hwf. unfold BaseSelector.remove, BaseSelector.options. run_m.
  intros [= <-]. simpl. eapply odict_wf_sublist; [apply sublist_filter|done].
Qed.

Lemma expand_nested_wf (new : list Obj) (w w' : Widget.t Obj) :
  odict.wf (Widget.options w) →
  CatSelector.expand_nested new w = Ok (tt, w') →
  odict.wf (Widget.options w').
Proof.
  intros Hwf. destruct new as [|got rest]; [by intros [= <-]|].
  destruct (decide (got ∈ Widget.values w)) as [Hgot|Hgot].
  - apply list_elem_of_fmap in Hgot as ([k v] & Hv & Hin). simpl in Hv. subst v.
    destruct (split_first (λ kv : string * Obj, kv.2 = got) _ _ Hin eq_refl)
      as (pre & [label got'] & post & Hopts & Hpre & Hgot).
    simpl in Hgot. subst got'.
    rewrite (expand_nested_found w pre label got post rest Hopts Hpre).
    intros [= <-]. apply odict_wf_of_pairs.
  - by rewrite expand_nested_missing.
Qed.

Lemma remove_selected_wf (w w' : Widget.t Obj) :
  odict.wf (Widget.options w) →
  CatSelector.remove_selected w = Ok (tt, w') →
  odict.wf (Widget.options w').
Proof.
  intros Hwf.
  destruct (collapse_nested_spec w (Widget.value w) 10)
    as (w1 & Hcollapse & _ & Hsub & _); [lia|].
  unfold CatSelector.remove_selected, BaseSelector.selected. run_m.
  rewrite Hcollapse.
  unfold BaseSelector.remove, BaseSelector.options. run_m.
  intros [= <-]. simpl.
  eapply odict_wf_sublist; [apply sublist_filter|].
  by eapply odict_wf_sublist.
Qed.
End wf_facts.

(** * Further properties *)

(** ** More about add *)
Section add_more.
Context {Obj : Type} `{Catalog Obj} `{EqDecision Obj}.
Variable preprocess : option (PyVal Obj → PyVal Obj).
Implicit Types (w : Widget.t Obj) (os : list Obj).

Lemma map_named_outcome (l : list (PyVal Obj)) :
  (∃ ps, BaseSelector.map_named l = Ok ps) ∨
  BaseSelector.map_named l = Raise AttributeError.
Proof.
  induction l as [|x l IH]; simpl; [left; by eexists|].
  destruct x; simpl; auto.
  destruct IH as [[ps ->]| ->]; [left; by eexists|by right].
Qed.

Lemma create_options_outcome (new : PyVal Obj) :
  (∃ created, BaseSelector._create_options preprocess new = Ok created) ∨
  BaseSelector._create_options preprocess new = Raise AttributeError.
Proof.
  unfold BaseSelector._create_options.
  destruct (map_named_outcome (coerce_to_list new preprocess)) as [[ps ->]| ->];
    [left; by eexists|by right].
Qed.

(** Before the body has renamed anything the dictionary is the one
    being iterated, so [pop] finds its key. *)
Lemma add_loop_outcome labels items todo (opts : odict.t Obj) :
  (∀ kv, kv ∈ todo → kv.1 ∈ odict.keys opts) →
  (∃ opts', BaseSelector.add_loop labels items todo opts false = Ok opts') ∨
  BaseSelector.add_loop labels items todo opts false = Raise RuntimeError.
Proof.
  induction todo as [|[k v] todo IH]; intros Hkeys; simpl; [left; by eexists|].
  destruct (bool_decide (k ∈ labels) && negb (bool_decide (v ∈ items))).
  - unfold odict.pop. destruct (odict.get k opts) eqn:Hget.
    + destruct (first_free_spec labels k) as (N & -> & _).
      destruct todo as [|[k' v'] todo]; simpl; [left; by eexists|by right].
    + apply odict_get_None in Hget. destruct Hget.
      apply (Hkeys (k, v)). apply elem_of_cons. by left.
  - apply IH. intros kv Hkv. apply Hkeys. apply elem_of_cons. by right.
Qed.

(** X3: [add] returns, or raises [AttributeError] (an item without a
    name) or [RuntimeError] (the dictionary changed while it was
    iterated); it never raises [KeyError] from its [pop] and its search
    for a free label always ends. *)
Theorem add_outcome (new : PyVal Obj) w :
  (∃ w', BaseSelector.add preprocess new w = Ok (tt, w')) ∨
  BaseSelector.add preprocess new w = Raise AttributeError ∨
  BaseSelector.add preprocess new w = Raise RuntimeError.
Proof.
  unfold BaseSelector.add, BaseSelector.labels, BaseSelector.items. run_m.
  destruct (create_options_outcome new) as [[created ->]| ->]; [|by auto].
  destruct (add_loop_outcome (Widget.labels w) (Widget.values w) created created)
    as [[opts' ->]| ->]; [| |by auto].
  - intros [k v] Hin. apply list_elem_of_fmap. by exists (k, v).
  - left. by eexists.
Qed.

Lemma Forall_removelast {A} (P : A → Prop) (l : list A) :
  Forall P l → Forall P (removelast l).
Proof.
  intros Hl. destruct (decide (l = [])) as [->|Hne]; [done|].
  destruct (List.exists_last Hne) as (pre & x & ->).
  rewrite removelast_last. by apply Forall_app in Hl as [? _].
Qed.

(** X2: [add] returns exactly when all its items have a name and no
    entry of the options made from them, except possibly the last one,
    has to be renamed. *)
Theorem add_returns_iff (new : PyVal Obj) w :
  (∃ w', BaseSelector.add preprocess new w = Ok (tt, w')) ↔
  ∃ created,
    BaseSelector._create_options preprocess new = Ok created ∧
    Forall (λ kv, ¬ conflicts (Widget.labels w) (Widget.values w) kv)
      (removelast created).
Proof.
  split.
  - intros (w' & (created & options & Hc & Hloop & _)%add_inv).
    exists created. split; [done|].
    apply add_loop_inv in Hloop
      as [[Hall _]|(pre & k & v & N & -> & Hpre & _)].
    + by apply Forall_removelast.
    + by rewrite removelast_last.
  - intros (created & Hc & Hall). by eapply add_returns.
Qed.

(** X4: the search for a free label in [add] ends after at most as
    many steps as the widget has labels, at the least [N] for which
    [label_N] is free. *)
Theorem first_free_least labels k :
  ∃ N, BaseSelector.first_free labels k = Some N ∧
       N ≤ length labels ∧
       (BaseSelector.suffixed k N ∉ labels) ∧
       (∀ n, n < N → BaseSelector.suffixed k n ∈ labels).
Proof.
  destruct (first_free_spec labels k) as (N & HN & Hfree & Hmin).
  exists N. split_and!; [done| |done..]. by eapply taken_bound.
Qed.

Lemma named_pairs_keys os :
  odict.keys ((λ o : Obj, (name o, o)) <$> os) = name <$> os.
Proof. unfold odict.keys. by rewrite <- list_fmap_compose. Qed.

Lemma named_pairs_values os :
  odict.values ((λ o : Obj, (name o, o)) <$> os) = os.
Proof.
  unfold odict.values. rewrite <- list_fmap_compose. apply list_fmap_id.
Qed.

(** What [add] does with items whose names are new and pairwise
    distinct. *)
Lemma add_fresh w os :
  keeps_objects preprocess →
  odict.wf (Widget.options w) →
  NoDup (name <$> os) →
  (∀ o, o ∈ os → name o ∉ Widget.labels w) →
  BaseSelector.add preprocess (PList (PObj <$> os)) w =
    Ok (tt, {| Widget.options :=
                 Widget.options w ++ ((λ o, (name o, o)) <$> os);
               Widget.value := take 1 os |}).
Proof.
  intros Hk Hwf Hnd Hfresh.
  set (pairs := (λ o : Obj, (name o, o)) <$> os).
  assert (odict.wf pairs) as Hpairs.
  { unfold odict.wf, pairs. by rewrite named_pairs_keys. }
  unfold BaseSelector.add, BaseSelector.labels, BaseSelector.items. run_m.
  rewrite (create_options_objects preprocess os Hk).
  fold pairs. rewrite (odict_of_pairs_id pairs Hpairs).
  rewrite add_loop_no_conflicts.
  2:{ apply Forall_forall. intros [k v] Hin [Hlab _].
      apply list_elem_of_fmap in Hin as (o & [= -> ->] & Ho).
      by apply (Hfresh o). }
  simpl. unfold Widget.set_value, Widget.set_options. simpl.
  do 3 f_equal.
  - apply odict_update_app. unfold odict.wf, odict.keys.
    rewrite fmap_app. apply NoDup_app. split_and!; [done| |done].
    intros k Hk1 Hk2. fold (odict.keys pairs) in Hk2.
    unfold pairs in Hk2. rewrite named_pairs_keys in Hk2.
    apply list_elem_of_fmap in Hk2 as (o & -> & Ho). by apply (Hfresh o).
  - unfold pairs. by rewrite named_pairs_values.
Qed.

Lemma filter_keep_all {A} (P : A → Prop) `{!∀ x, Decision (P x)} (l : list A) :
  Forall P l → filter P l = l.
Proof.
  intros Hl. induction Hl as [|x l Hx _ IH]; [done|].
  rewrite filter_cons_True by done. by rewrite IH.
Qed.

End add_more.

(** X8: without a [preprocess], an argument that holds something other
    than a catalog or source object (a string, [None], a nested list)
    makes [_create_options] raise [AttributeError], and with it the
    setter of [items] and [add]. *)
Theorem create_options_unnamed {Obj} `{Catalog Obj} `{EqDecision Obj}
    (new : PyVal Obj) (x : PyVal Obj) (w : Widget.t Obj) :
  x ∈ coerce_to_list new None →
  (∀ o, x ≠ PObj o) →
  BaseSelector._create_options None new = Raise AttributeError ∧
  (new ≠ PNone → BaseSelector.set_items None new w = Raise AttributeError) ∧
  BaseSelector.add None new w = Raise AttributeError.
Proof.
  intros Hx Hnot.
  assert (BaseSelector._create_options None new = Raise AttributeError) as Hc.
  { unfold BaseSelector._create_options.
    assert (BaseSelector.map_named (coerce_to_list new None)
              = Raise AttributeError) as ->; [|done].
    induction (coerce_to_list new None) as [|y l IH];
      [by apply elem_of_nil in Hx|].
    apply elem_of_cons in Hx as [<-|Hx]; simpl.
    - destruct x; try done. by destruct (Hnot o).
    - destruct y; simpl; try done. by rewrite (IH Hx). }
  split; [done|]. split.
  - intros Hne.
    assert (BaseSelector.set_items None new w =
              BaseSelector.set_options None new w) as -> by by destruct new.
    unfold BaseSelector.set_options. run_m. by rewrite Hc.
  - unfold BaseSelector.add. run_m. by rewrite Hc.
Qed.

(** ** More about remove *)
Section remove_more.
Context {Obj : Type} `{Catalog Obj} `{EqDecision Obj}.
Implicit Types (w : Widget.t Obj) (a b items : list (PyVal Obj)).

Lemma py_in_app (v : Obj) a b :
  py_in v (a ++ b) ↔ py_in v a ∨ py_in v b.
Proof. rewrite !py_in_spec. apply elem_of_app. Qed.

End remove_more.

(** ** More about expand_nested *)
Section expand_more.
Context {Obj : Type} `{Catalog Obj} `{Countable Obj}.
Implicit Types (w : Widget.t Obj) (d : odict.t Obj).

Lemma elem_of_first_occurrences (k : string) (ks : list string) :
  k ∈ first_occurrences ks ↔ k ∈ ks.
Proof.
  induction ks as [|k' ks IH]; simpl; [done|].
  rewrite !elem_of_cons, list_elem_of_filter, IH.
  destruct (decide (k = k')); tauto.
Qed.

Lemma elem_of_keys_of_pairs (k : string) (ps : list (string * Obj)) :
  k ∈ odict.keys (odict.of_pairs ps) ↔ k ∈ ps.*1.
Proof. by rewrite odict_keys_of_pairs, elem_of_first_occurrences. Qed.

(** On the record, [expand_nested] does nothing for an empty
    selection, raises [StopIteration] when the first selected object is
    not among the items, and otherwise assigns options in which every
    label that was there is still a label; it assigns nothing to the
    selection. *)
Lemma expand_nested_outcome w (new : list Obj) :
  match new with
  | [] => CatSelector.expand_nested new w = Ok (tt, w)
  | got :: _ =>
      if decide (got ∈ Widget.values w) then
        ∃ w', CatSelector.expand_nested new w = Ok (tt, w') ∧
              Widget.value w' = Widget.value w ∧
              Widget.labels w ⊆ Widget.labels w' ∧
              odict.wf (Widget.options w')
      else CatSelector.expand_nested new w = Raise StopIteration
  end.
Proof.
  destruct new as [|got rest]; [done|].
  destruct (decide (got ∈ Widget.values w)) as [Hgot|Hgot].
  - apply list_elem_of_fmap in Hgot as ([k v] & Hv & Hin). simpl in Hv. subst v.
    destruct (split_first (λ kv : string * Obj, kv.2 = got) _ _ Hin eq_refl)
      as (pre & [label got'] & post & Hopts & Hpre & Hgot).
    simpl in Hgot. subst got'.
    rewrite (expand_nested_found w pre label got post rest Hopts Hpre).
    eexists. split; [done|]. simpl. split_and!; [done| |apply odict_wf_of_pairs].
    intros l Hl. unfold Widget.labels in *. simpl.
    apply elem_of_keys_of_pairs. unfold odict.keys in Hl.
    rewrite Hopts in Hl. rewrite !fmap_app, !fmap_cons, !fmap_app.
    rewrite fmap_app, fmap_cons in Hl.
    rewrite !elem_of_app, !elem_of_cons, !elem_of_app.
    rewrite elem_of_app, elem_of_cons in Hl. tauto.
  - by apply expand_nested_missing.
Qed.

Lemma odict_set_present (k : string) (v : Obj) d :
  odict.wf d → (k, v) ∈ d → odict.set k v d = d.
Proof.
  unfold odict.wf, odict.keys.
  induction d as [|[k' v'] d IH]; [by intros _ ?%elem_of_nil|].
  intros [Hnin Hnd]%NoDup_cons [Heq|Hin]%elem_of_cons; simpl.
  - injection Heq as -> ->. by rewrite decide_True.
  - rewrite decide_False; [by rewrite IH|].
    intros ->. apply Hnin. apply list_elem_of_fmap. by exists (k, v).
Qed.

Lemma odict_update_present d (ps : list (string * Obj)) :
  odict.wf d → (∀ p, p ∈ ps → p ∈ d) → odict.update d ps = d.
Proof.
  intros Hwf. unfold odict.update.
  induction ps as [|[k v] ps IH]; intros Hps; simpl; [done|].
  rewrite odict_set_present; [|done|].
  - apply IH. intros p Hp. apply Hps. apply elem_of_cons. by right.
  - apply Hps. apply elem_of_cons. by left.
Qed.

Lemma odict_of_pairs_app (ps qs : list (string * Obj)) :
  odict.of_pairs (ps ++ qs) = odict.update (odict.of_pairs ps) qs.
Proof. unfold odict.of_pairs, odict.update. apply fold_left_app. Qed.

(** The list with the children inserted is a dictionary when their
    labels are new and pairwise distinct. *)
Lemma inserted_wf (old pre post : odict.t Obj) label got :
  odict.wf old →
  old = pre ++ (label, got) :: post →
  NoDup (nested_label label <$> CatSelector.get_children got) →
  (∀ c, c ∈ CatSelector.get_children got →
        nested_label label c ∉ odict.keys old) →
  odict.wf (pre ++ (label, got) ::
              ((λ c, (nested_label label c, c)) <$>
                 CatSelector.get_children got) ++ post).
Proof.
  intros Hwf Hopts Hnd Hfresh.
  set (lab := λ c : Obj, (nested_label label c, c)).
  unfold odict.wf, odict.keys in *. rewrite Hopts in Hwf.
  assert ((pre ++ (label, got) :: (lab <$> CatSelector.get_children got)
             ++ post).*1 ≡ₚ
          (lab <$> CatSelector.get_children got).*1
            ++ (pre ++ (label, got) :: post).*1) as ->.
  { rewrite !fmap_app, !fmap_cons, !fmap_app.
    rewrite (Permutation_app_comm _ (pre.*1 ++ _)).
    rewrite <- app_assoc. simpl. by rewrite (Permutation_app_comm post.*1). }
  apply NoDup_app. split_and!.
  - by rewrite <- list_fmap_compose.
  - intros l (c & -> & Hc)%list_elem_of_fmap. simpl in Hc.
    apply list_elem_of_fmap in Hc as (c' & -> & Hc'). simpl.
    specialize (Hfresh c' Hc'). by rewrite Hopts in Hfresh.
  - done.
Qed.

(** X12: expanding the same catalog a second time changes nothing,
    when the labels of its children were new and pairwise distinct the
    first time: the children are not listed twice. *)
Theorem expand_nested_idempotent w pre label got post :
  odict.wf (Widget.options w) →
  Widget.options w = pre ++ (label, got) :: post →
  Forall (λ kv, kv.2 ≠ got) pre →
  NoDup (nested_label label <$> CatSelector.get_children got) →
  (∀ c, c ∈ CatSelector.get_children got →
        nested_label label c ∉ Widget.labels w) →
  (let* _ := CatSelector.expand_nested [got] in
   CatSelector.expand_nested [got]) w = CatSelector.expand_nested [got] w.
Proof.
  intros Hwf Hopts Hpre Hnd Hfresh.
  set (new := (λ c, (nested_label label c, c)) <$> CatSelector.get_children got).
  pose proof (inserted_wf _ pre post label got Hwf Hopts Hnd Hfresh) as Hins.
  fold new in Hins.
  unfold bind.
  rewrite (expand_nested_found w pre label got post [] Hopts Hpre). fold new.
  rewrite (odict_of_pairs_id _ Hins).
  rewrite (expand_nested_found
             {| Widget.options := pre ++ (label, got) :: new ++ post;
                Widget.value := Widget.value w |}
             pre label got (new ++ post) [] eq_refl Hpre).
  fold new. simpl. do 3 f_equal.
  replace (pre ++ (label, got) :: new ++ new ++ post)
    with ((pre ++ (label, got) :: new) ++ (new ++ post))
    by (by rewrite <- app_assoc).
  assert (odict.wf (pre ++ (label, got) :: new)) as Hhead.
  { eapply odict_wf_sublist; [|exact Hins].
    apply sublist_app; [done|]. constructor.
    by apply sublist_inserts_r. }
  rewrite odict_of_pairs_app, (odict_of_pairs_id _ Hhead).
  unfold odict.update. rewrite fold_left_app.
  fold (odict.update (pre ++ (label, got) :: new) new).
  rewrite odict_update_present; [|done|].
  - fold (odict.update (pre ++ (label, got) :: new) post).
    rewrite odict_update_app; rewrite <- app_assoc; done.
  - intros p Hp. apply elem_of_app. right. apply elem_of_cons. by right.
Qed.
End expand_more.

(** ** More about collapse_nested and remove_selected *)
Section collapse_more.
Context {Obj : Type} `{Catalog Obj} `{Countable Obj}.
Implicit Types (w : Widget.t Obj) (cats : list Obj).

(** The result of [collapse_nested] as a filter on the options. *)
Lemma collapse_nested_filter w cats (max_nestedness : Z) :
  (0 < max_nestedness)%Z →
  ∃ ch : list Obj,
    CatSelector.collapse_nested cats max_nestedness w =
      Ok (tt, {| Widget.options :=
                   filter (λ kv, kv.2 ∉ ch) (Widget.options w);
                 Widget.value := Widget.value w |}) ∧
    (∀ o, o ∈ ch ↔
          ∃ n, (1 ≤ n ∧ n ≤ Z.to_nat max_nestedness) ∧
               nested_under (Widget.values w) cats n o).
Proof.
  intros Hmax. unfold CatSelector.collapse_nested. run_m.
  set (old := odict.values (Widget.options w)).
  set (parents := list_to_set (omap cat (filter (λ c, is_Some (cat c)) old))).
  destruct (collapse_runs parents (Z.to_nat max_nestedness)
              (CatSelector.collapse_init old cats max_nestedness))
    as (n & st & Hr & Hn); [done|].
  rewrite (runs_while _ _ _ _ _ _ Hr Hn).
  pose proof (collapse_inv_runs old cats max_nestedness parents n 0 _ _
                (elem_of_parents old) Hr
                (collapse_inv_init old cats max_nestedness)) as Hinv.
  pose proof (runs_exits _ _ _ _ _ Hr) as Hexit.
  unfold BaseSelector.remove, BaseSelector.options. run_m.
  exists (CatSelector.children st). split.
  - unfold Widget.set_options. do 3 f_equal.
    apply list_filter_iff. intros [k v]. simpl. by rewrite py_in_objects.
  - intros o.
    apply (collapse_inv_exit old cats max_nestedness n st o Hmax Hinv Hexit).
Qed.


Lemma while_exit {St} (cond : St → bool) (body : St → St) fuel s :
  cond s = false → while cond body fuel s = Some s.
Proof. intros Hc. destruct fuel; simpl; by rewrite Hc. Qed.

Lemma remove_nothing w : BaseSelector.remove (PList []) w = Ok (tt, w).
Proof.
  unfold BaseSelector.remove, BaseSelector.options. run_m.
  unfold Widget.set_options. destruct w as [opts val]. simpl.
  do 3 f_equal. apply filter_keep_all, Forall_forall. by intros [k v] _ ?.
Qed.

(** X14: [collapse_nested] leaves the widget as it is when there are
    no catalogs to collapse or [max_nestedness] is not positive: the
    loop is not entered and nothing is removed. *)
Theorem collapse_nested_noop w cats (max_nestedness : Z) :
  cats = [] ∨ (max_nestedness ≤ 0)%Z →
  CatSelector.collapse_nested cats max_nestedness w = Ok (tt, w).
Proof.
  intros Hnone. unfold CatSelector.collapse_nested. run_m.
  rewrite while_exit; [by apply remove_nothing|].
  unfold CatSelector.collapse_cond. apply andb_false_iff. simpl.
  destruct Hnone as [->|Hmax].
  - left. apply bool_decide_eq_false_2.
    change (list_to_set []) with (∅ : gset Obj). rewrite size_empty. lia.
  - right. apply bool_decide_eq_false_2. lia.
Qed.

(** X15: [remove_selected] with nothing selected removes nothing. *)
Theorem remove_selected_nothing w :
  Widget.value w = [] →
  CatSelector.remove_selected w = Ok (tt, w).
Proof.
  intros Hsel. unfold CatSelector.remove_selected, BaseSelector.selected.
  unfold bind, gets. rewrite Hsel.
  rewrite collapse_nested_noop by by left.
  rewrite Hsel. by apply remove_nothing.
Qed.
End collapse_more.

(** ** More about selection changes *)
Section selection_more.
Context {Obj World : Type} `{Catalog Obj} `{Countable Obj}.
Implicit Types (s : Selector.t Obj World) (new : list Obj).

Local Arguments CatSelector.expand_nested : simpl never.

(** X17: in a [SourceSelector] whose watcher is registered, a change
    of the selection stores the new value and touches neither the
    options nor the watchers. *)
Theorem source_selection_frame s0 s new :
  SourceSelector.setup s0 = Ok (tt, s) →
  Widget.value (Selector.widget s) ≠ new →
  ∃ s', change_value new s = Ok (tt, s') ∧
        Selector.widget s' = Widget.set_value new (Selector.widget s) ∧
        Selector.remove_button s' = Selector.remove_button s ∧
        Selector.watchers s' = Selector.watchers s.
Proof.
  intros ->%source_setup_inv Hnew. unfold change_value. run_m.
  rewrite decide_False by done.
  unfold trigger. run_m. unfold SourceSelector.callback. run_m.
  destruct (Selector.done_callback s0); by eexists.
Qed.
End selection_more.

(** ** The setter of selected *)
Section selected_facts.
Context {Obj : Type} `{Catalog Obj} `{EqDecision Obj}.
Variable preprocess : option (PyVal Obj → PyVal Obj).
Implicit Types (w : Widget.t Obj) (os : list Obj) (ks : list string).

Lemma map_result_labels (d : odict.t Obj) ks :
  BaseSelector.map_result (BaseSelector.selected_preprocess d) (PStr <$> ks) =
    match mapM (λ k, odict.get k d) ks with
    | Some vs => Ok (PObj <$> vs)
    | None => Raise KeyError
    end.
Proof.
  induction ks as [|k ks IH]; [done|]. csimpl. rewrite IH.
  destruct (odict.get k d); [|done]. simpl.
  by destruct (mapM _ ks).
Qed.

Lemma map_result_objects (d : odict.t Obj) os :
  BaseSelector.map_result (BaseSelector.selected_preprocess d) (PObj <$> os) =
    Ok (PObj <$> os).
Proof. induction os as [|o os IH]; [done|]. csimpl. by rewrite IH. Qed.

(** X18: set to a list of labels, [selected] becomes the values the
    options hold at these labels, in order, and [KeyError] is raised
    when one of them is not a label; set to a list of objects, it
    becomes that list.  The widget is not touched before the
    assignment. *)
Theorem selected_by_labels w ks os :
  BaseSelector.selected_items (PList (PStr <$> ks)) w =
    match mapM (λ k, odict.get k (Widget.options w)) ks with
    | Some vs => Ok (PObj <$> vs, w)
    | None => Raise KeyError
    end ∧
  BaseSelector.selected_items (PList (PObj <$> os)) w = Ok (PObj <$> os, w).
Proof.
  unfold BaseSelector.selected_items, BaseSelector.options. run_m.
  rewrite map_result_labels, map_result_objects.
  split; [|done]. by destruct (mapM _ ks).
Qed.

(** X19: after [items] was set to objects with pairwise distinct
    names, selecting by the name of one of them selects that object. *)
Theorem select_after_set_items w os o :
  keeps_objects preprocess →
  NoDup (name <$> os) →
  o ∈ os →
  ∃ w', BaseSelector.set_items preprocess (PList (PObj <$> os)) w = Ok (tt, w') ∧
        BaseSelector.selected_items (PStr (name o)) w' = Ok ([PObj o], w').
Proof.
  intros Hk Hnd Ho.
  set (pairs := (λ o : Obj, (name o, o)) <$> os).
  assert (odict.wf pairs) as Hpairs.
  { unfold odict.wf, odict.keys, pairs. by rewrite <- list_fmap_compose. }
  change (BaseSelector.set_items preprocess (PList (PObj <$> os)) w)
    with (BaseSelector.set_options preprocess (PList (PObj <$> os)) w).
  rewrite (set_options_ok preprocess _ _ w
             (create_options_objects preprocess os Hk)).
  eexists. split; [done|].
  unfold BaseSelector.selected_items, BaseSelector.options. run_m.
  fold pairs. rewrite (odict_of_pairs_id pairs Hpairs).
  rewrite (odict_elem_of_get (name o) o pairs Hpairs); [done|].
  apply list_elem_of_fmap. by exists o.
Qed.
End selected_facts.

(** ** Paths and sources *)
Section sources_facts.
Context {Obj : Type} `{Catalog Obj} `{EntryObjects Obj} `{EqDecision Obj}.
Implicit Types (w : Widget.t Obj) (cs os : list Obj).

Lemma map_named_preprocessed (l : list (PyVal Obj)) :
  BaseSelector.map_named (CatSelector.preprocess <$> l) =
    match mapM as_catalog l with
    | Some os => Ok ((λ o, (name o, o)) <$> os)
    | None => Raise AttributeError
    end.
Proof.
  induction l as [|x l IH]; [done|]. csimpl. rewrite IH.
  destruct x as [|s|o|l']; simpl; try done; by destruct (mapM _ l).
Qed.

(** X20: in a [CatSelector], a list of paths and catalogs assigned to
    [items] is shown like the list of the catalogs they stand for, each
    path opened; a list that holds anything else raises
    [AttributeError]. *)
Theorem cat_items_paths w (l : list (PyVal Obj)) :
  BaseSelector.set_items (Some CatSelector.preprocess) (PList l) w =
    match mapM as_catalog l with
    | Some os => BaseSelector.set_items None (PList (PObj <$> os)) w
    | None => Raise AttributeError
    end.
Proof.
  change (BaseSelector.set_items (Some CatSelector.preprocess) (PList l) w)
    with (BaseSelector.set_options (Some CatSelector.preprocess) (PList l) w).
  unfold BaseSelector.set_options, BaseSelector._create_options. run_m.
  rewrite map_named_preprocessed.
  destruct (mapM as_catalog l) as [os|]; [|done].
  change (BaseSelector.set_items None (PList (PObj <$> os)) w)
    with (BaseSelector.set_options None (PList (PObj <$> os)) w).
  unfold BaseSelector.set_options, BaseSelector._create_options. run_m.
  by rewrite map_named_objects.
Qed.

Lemma collect_sources_objects cs (acc : list Obj) :
  SourceSelector.collect_sources (PObj <$> cs) acc =
    Ok (acc ++ (cs ≫= SourceSelector.source_entries)).
Proof.
  revert acc. induction cs as [|c cs IH]; intros acc; csimpl.
  - by rewrite app_nil_r.
  - by rewrite IH, <- app_assoc.
Qed.

Lemma elem_of_of_pairs (k : string) (v : Obj) (ps : list (string * Obj)) :
  (k, v) ∈ odict.of_pairs ps → (k, v) ∈ ps.
Proof.
  intros Hin.
  apply (odict_elem_of_get _ _ _ (odict_wf_of_pairs ps)) in Hin.
  unfold odict.of_pairs in Hin. rewrite odict_get_update in Hin.
  destruct (odict.get k (reverse ps)) eqn:Hget; [|done].
  injection Hin as ->. apply odict_get_Some in Hget.
  by apply elem_of_reverse.
Qed.

(** X21: set to a list of catalogs, [cats] makes the options hold
    entries of these catalogs that are no catalogs themselves, and
    nothing else; the name of every such entry is a label; with
    pairwise distinct names the options are these entries catalog by
    catalog, in the order of the entries; and the first value is
    selected. *)
Theorem set_cats_sources w cs :
  ∃ w', SourceSelector.set_cats (PList (PObj <$> cs)) w = Ok (tt, w') ∧
        (∀ v, v ∈ Widget.values w' →
           ∃ c e, c ∈ cs ∧ e ∈ _entries c ∧
                  _container e ≠ "catalog" ∧ v = entry_self e) ∧
        (∀ c e, c ∈ cs → e ∈ _entries c → _container e ≠ "catalog" →
                name (entry_self e) ∈ Widget.labels w') ∧
        (NoDup (name <$> (cs ≫= SourceSelector.source_entries)) →
           Widget.options w' =
             (λ o, (name o, o)) <$> (cs ≫= SourceSelector.source_entries)) ∧
        Widget.value w' = take 1 (Widget.values w').
Proof.
  set (sources := cs ≫= SourceSelector.source_entries).
  assert (∀ v, v ∈ sources ↔
               ∃ c e, c ∈ cs ∧ e ∈ _entries c ∧
                      _container e ≠ "catalog" ∧ v = entry_self e) as Hsrc.
  { intros v. unfold sources. rewrite list_elem_of_bind. split.
    - intros (c & Hv & Hc). unfold SourceSelector.source_entries in Hv.
      apply list_elem_of_fmap in Hv as (e & -> & He).
      apply list_elem_of_filter in He as [? ?]. by exists c, e.
    - intros (c & e & Hc & He & Hcont & ->). exists c. split; [|done].
      apply list_elem_of_fmap. exists e. split; [done|].
      by apply list_elem_of_filter. }
  unfold SourceSelector.set_cats. run_m.
  rewrite collect_sources_objects. simpl. fold sources.
  change (BaseSelector.set_items None (PList (PObj <$> sources)) w)
    with (BaseSelector.set_options None (PList (PObj <$> sources)) w).
  assert (keeps_objects (Obj:=Obj) None) as Hk by (by intros f [=]).
  rewrite (set_options_ok None _ _ w (create_options_objects None sources Hk)).
  eexists. split; [done|]. simpl. split_and!.
  - intros v ([k v'] & Hv & Hin)%list_elem_of_fmap. simpl in Hv. subst v'.
    apply elem_of_of_pairs, list_elem_of_fmap in Hin as (o & [= -> ->] & Ho).
    by apply Hsrc.
  - intros c e Hc He Hcont. unfold Widget.labels. simpl.
    rewrite odict_keys_of_pairs. apply elem_of_first_occurrences.
    rewrite <- list_fmap_compose. apply list_elem_of_fmap.
    exists (entry_self e). split; [done|]. apply Hsrc. by exists c, e.
  - intros Hnd. apply odict_of_pairs_id.
    unfold odict.wf, odict.keys. by rewrite <- list_fmap_compose.
  - done.
Qed.

(** X22: set to [None], or to a list that holds anything but catalog
    objects, [cats] raises [AttributeError], where the setter of
    [items] takes [None] for "leave as it is". *)
Theorem set_cats_unnamed w (cats x : PyVal Obj) :
  x ∈ coerce_to_list cats None →
  (∀ o, x ≠ PObj o) →
  SourceSelector.set_cats cats w = Raise AttributeError.
Proof.
  intros Hx Hnot.
  assert (∀ acc, SourceSelector.collect_sources (coerce_to_list cats None) acc
                   = Raise AttributeError) as Hcollect.
  { induction (coerce_to_list cats None) as [|y l IH]; intros acc;
      [by apply elem_of_nil in Hx|].
    apply elem_of_cons in Hx as [<-|Hx]; simpl.
    - destruct x; try done. by destruct (Hnot o).
    - destruct y; try done. by apply IH. }
  unfold SourceSelector.set_cats, bind, lift. by rewrite Hcollect.
Qed.
End sources_facts.

(** * The widget with its reactions *)

(** ** Assignments and what follows them *)
Section reactive_facts.
Context {Obj World : Type} `{Catalog Obj} `{Countable Obj} `{Toolkit Obj}.
Implicit Types (s : Selector.t Obj World) (w : Widget.t Obj).
Implicit Types (new : list Obj) (notify : Reactive.Notify (Obj:=Obj) (World:=World)).

Local Arguments CatSelector.expand_nested : simpl never.
Local Arguments Reactive.expand_nested : simpl never.
Local Arguments Reactive.collapse_nested : simpl never.
Local Arguments Reactive.remove : simpl never.
Local Arguments Reactive.add : simpl never.
Local Arguments Reactive.set_options : simpl never.
Local Arguments CatSelector.collapse_nested : simpl never.
Local Arguments BaseSelector.remove : simpl never.
Local Arguments BaseSelector.add : simpl never.
Local Arguments BaseSelector.set_options : simpl never.

(** *** The methods assign what the methods on the record assign *)

Lemma set_options_assigning preprocess notify (new : PyVal Obj) s :
  Reactive.set_options preprocess notify new s =
    Reactive.assigning (BaseSelector.set_options preprocess new) (λ w',
      let* v := gets (λ s, Widget.value (Selector.widget s)) in
      match v with
      | _ :: _ =>
          Reactive.set_param notify (Widget.options w') (Widget.value w')
      | [] =>
          let* _ := Reactive.assign_options notify (Widget.options w') in
          Reactive.assign_value notify (Widget.value w')
      end) s.
Proof.
  unfold Reactive.set_options, Reactive.assigning, BaseSelector.set_options.
  unfold bind, gets, lift, modify.
  destruct (BaseSelector._create_options preprocess new) as [created| |];
    [|done..].
  by destruct (Widget.value (Selector.widget s)).
Qed.

Lemma add_assigning preprocess notify (new : PyVal Obj) s :
  Reactive.add preprocess notify new s =
    Reactive.assigning (BaseSelector.add preprocess new) (λ w',
      let* _ := Reactive.store (Widget.set_options (Widget.options w')) in
      let* _ := Reactive.options_event notify in
      Reactive.assign_value notify (Widget.value w')) s.
Proof.
  unfold Reactive.add, Reactive.assigning, BaseSelector.add.
  unfold BaseSelector.labels, BaseSelector.items.
  unfold bind, gets, lift, modify.
  destruct (BaseSelector._create_options preprocess new) as [created| |];
    [|done..].
  by destruct (BaseSelector.add_loop _ _ _ _ _).
Qed.

Lemma remove_assigning notify (items : PyVal Obj) s :
  Reactive.remove notify items s =
    Reactive.assigning (BaseSelector.remove items) (λ w',
      let* _ := Reactive.assign_options notify (Widget.options w') in
      Reactive.options_event notify) s.
Proof. done. Qed.

Lemma expand_nested_assigning notify got rest s :
  Reactive.expand_nested notify (got :: rest) s =
    Reactive.assigning (CatSelector.expand_nested (got :: rest)) (λ w',
      Reactive.assign_options notify (Widget.options w')) s.
Proof.
  unfold Reactive.expand_nested, Reactive.assigning, CatSelector.expand_nested.
  unfold bind, gets, lift, modify.
  destruct (next (fst <$> filter (λ kv : string * Obj, kv.2 = got)
                            (Widget.options (Selector.widget s))))
    as [label| |]; [|done..].
  by destruct (next (fst <$> filter (λ ikv : nat * (string * Obj),
                                       ikv.2.2 = got)
                               (enumerate (Widget.options (Selector.widget s))))).
Qed.

Lemma collapse_nested_assigning notify cats (max_nestedness : Z) s :
  Reactive.collapse_nested notify cats max_nestedness s =
    Reactive.assigning (CatSelector.collapse_nested cats max_nestedness)
      (λ w', let* _ := Reactive.assign_options notify (Widget.options w') in
             Reactive.options_event notify) s.
Proof.
  unfold Reactive.collapse_nested, Reactive.assigning,
    CatSelector.collapse_nested.
  unfold bind, gets.
  by destruct (while _ _ _ _).
Qed.

(** An exception of [add] comes before anything is assigned. *)
Lemma add_raises_first preprocess notify (new : PyVal Obj) s e :
  BaseSelector.add preprocess new (Selector.widget s) = Raise e →
  Reactive.add preprocess notify new s = Raise e.
Proof.
  intros Hadd. rewrite add_assigning. unfold Reactive.assigning.
  by rewrite Hadd.
Qed.

(** A list the toolkit finds unchanged is the list that was there. *)
Lemma unchanged_ne (old new : list Obj) : old ≠ new → unchanged old new = false.
Proof.
  intros Hne. destruct (unchanged old new) eqn:Hu; [|done].
  by apply unchanged_eq in Hu.
Qed.

Lemma set_widget_same s : Selector.set_widget (Selector.widget s) s = s.
Proof. by destruct s. Qed.

Lemma set_value_same w : Widget.set_value (Widget.value w) w = w.
Proof. by destruct w. Qed.

Lemma set_options_same w : Widget.set_options (Widget.options w) w = w.
Proof. by destruct w. Qed.

Lemma same_frame_refl s : same_frame s s.
Proof. done. Qed.

Lemma same_frame_trans s1 s2 s3 :
  same_frame s1 s2 → same_frame s2 s3 → same_frame s1 s3.
Proof. intros (? & ? & ?) (? & ? & ?). unfold same_frame. by split_and!; etrans. Qed.

Lemma callbacks_only_frame s s' :
  same_frame s s' → callbacks_only s → callbacks_only s'.
Proof. intros (Hw & _). unfold callbacks_only, value_watchers. by rewrite Hw. Qed.

Lemma cat_ready_frame s s' : same_frame s s' → cat_ready s → cat_ready s'.
Proof.
  intros (Hw & _ & Hb). unfold cat_ready, value_watchers. by rewrite Hw, Hb.
Qed.

(** *** A selection that lies within the options *)

Lemma kept_all w :
  Forall (λ v, v ∈ Widget.values w) (Widget.value w) →
  Reactive.kept w = Widget.value w.
Proof. apply filter_keep_all. Qed.

Lemma kept_within w v : v ∈ Reactive.kept w → v ∈ Widget.values w.
Proof. unfold Reactive.kept. by intros [? _]%list_elem_of_filter. Qed.

Lemma settle_idem w : Reactive.settle (Reactive.settle w) = Reactive.settle w.
Proof.
  unfold Reactive.settle, Reactive.kept, Widget.set_value, Widget.values. simpl.
  f_equal. rewrite (list_filter_filter _ _ (Widget.value w)).
  apply list_filter_iff. intros v. tauto.
Qed.

(** The widget does not react when every selected object is a value
    of the options: no watcher is called. *)
Lemma options_event_settled notify s :
  Forall (λ v, v ∈ Widget.values (Selector.widget s))
    (Widget.value (Selector.widget s)) →
  Reactive.options_event notify s = Ok (tt, s).
Proof.
  intros Hall. unfold Reactive.options_event. run_m.
  by rewrite decide_True by by apply kept_all.
Qed.

Lemma assign_options_settled notify (o : odict.t Obj) s :
  Forall (λ v, v ∈ odict.values o) (Widget.value (Selector.widget s)) →
  Reactive.assign_options notify o s =
    Ok (tt, Selector.set_widget (Widget.set_options o (Selector.widget s)) s).
Proof.
  intros Hall. unfold Reactive.assign_options, Reactive.store. run_m.
  by rewrite options_event_settled.
Qed.

(** *** Watchers that only tell the caller *)

Lemma run_callbacks notify hs new s :
  Forall (λ h, h = SourceSelector_callback) hs →
  ∃ x, Reactive.run_handlers notify hs new s = Ok (tt, Selector.set_world x s).
Proof.
  intros Hall. revert s. induction Hall as [|h hs -> _ IH]; intros s.
  - exists (Selector.world s). by destruct s.
  - simpl. unfold SourceSelector.callback. run_m.
    destruct (Selector.done_callback s) as [done|]; simpl; [|apply IH].
    destruct (IH (Selector.set_world (done new (Selector.world s)) s))
      as [x Hx].
    rewrite Hx. by exists x.
Qed.

Lemma dispatch_callbacks new s :
  callbacks_only s →
  ∃ x, Reactive.dispatch new s = Ok (tt, Selector.set_world x s).
Proof.
  intros Hs. unfold Reactive.dispatch. simpl. unfold bind, gets.
  by apply run_callbacks.
Qed.

Lemma lands_ret s : lands (ret tt) s (Selector.widget s).
Proof. by exists s. Qed.

Lemma lands_store (f : Widget.t Obj → Widget.t Obj) s :
  lands (Reactive.store f) s (f (Selector.widget s)).
Proof. by eexists. Qed.

Lemma lands_bind (m k : M (Selector.t Obj World) unit) s w1 w2 :
  lands m s w1 →
  (∀ s1, Selector.widget s1 = w1 → same_frame s s1 → lands k s1 w2) →
  lands (let* _ := m in k) s w2.
Proof.
  intros (s1 & Hm & Hw1 & Hf1) Hk.
  destruct (Hk s1 Hw1 Hf1) as (s2 & Hk2 & Hw2 & Hf2).
  exists s2. unfold bind. rewrite Hm. split_and!; [done..|].
  by eapply same_frame_trans.
Qed.

Lemma lands_gets {A} (f : Selector.t Obj World → A)
    (k : A → M (Selector.t Obj World) unit) s w :
  lands (k (f s)) s w → lands (let* x := gets f in k x) s w.
Proof. done. Qed.

Lemma lands_dispatch new s :
  callbacks_only s → lands (Reactive.dispatch new) s (Selector.widget s).
Proof.
  intros Hs. destruct (dispatch_callbacks new s Hs) as [x Hx].
  by eexists.
Qed.

Lemma lands_assign_value (v : list Obj) s :
  callbacks_only s →
  lands (Reactive.assign_value Reactive.dispatch v) s
    (Widget.set_value v (Selector.widget s)).
Proof.
  intros Hs. unfold Reactive.assign_value. apply lands_gets.
  apply (lands_bind _ _ _ _ _ (lands_store _ s)).
  intros s1 Hw1 Hf1. destruct (unchanged _ v).
  - rewrite <- Hw1. apply lands_ret.
  - rewrite <- Hw1. apply lands_dispatch. by eapply callbacks_only_frame.
Qed.

Lemma lands_options_event s :
  callbacks_only s →
  lands (Reactive.options_event Reactive.dispatch) s
    (Reactive.settle (Selector.widget s)).
Proof.
  intros Hs. unfold Reactive.options_event. apply lands_gets.
  destruct (decide _) as [Heq|Hne].
  - unfold Reactive.settle. rewrite Heq, set_value_same. apply lands_ret.
  - by apply lands_assign_value.
Qed.

Lemma lands_assign_options (o : odict.t Obj) s :
  callbacks_only s →
  lands (Reactive.assign_options Reactive.dispatch o) s
    (Reactive.settle (Widget.set_options o (Selector.widget s))).
Proof.
  intros Hs. unfold Reactive.assign_options.
  apply (lands_bind _ _ _ _ _ (lands_store _ s)).
  intros s1 Hw1 Hf1. rewrite <- Hw1. apply lands_options_event.
  by eapply callbacks_only_frame.
Qed.

Lemma lands_ext (m m' : M (Selector.t Obj World) unit) s w :
  m s = m' s → lands m' s w → lands m s w.
Proof. intros Heq. unfold lands. by rewrite Heq. Qed.

Lemma lands_assigning {A} (m : M (Widget.t Obj) A) k s a w1 w2 :
  m (Selector.widget s) = Ok (a, w1) →
  lands (k w1) s w2 →
  lands (Reactive.assigning m k) s w2.
Proof. intros Hm Hk. unfold lands, Reactive.assigning. by rewrite Hm. Qed.

(** In a selector whose watchers only tell the caller, [remove] ends
    with the options it assigned and the selection cut down to them. *)
Lemma lands_remove (items : PyVal Obj) s w' :
  callbacks_only s →
  BaseSelector.remove items (Selector.widget s) = Ok (tt, w') →
  lands (Reactive.remove Reactive.dispatch items) s (Reactive.settle w').
Proof.
  intros Hs Hrm. eapply lands_ext; [apply remove_assigning|].
  eapply lands_assigning; [done|].
  eapply lands_bind; [by apply lands_assign_options|].
  intros s1 Hw1 Hf1.
  assert (Widget.set_options (Widget.options w') (Selector.widget s) = w')
    as Hw'.
  { revert Hrm. unfold BaseSelector.remove, BaseSelector.options. run_m.
    by intros [= <-]. }
  rewrite Hw' in Hw1. rewrite <- (settle_idem w'), <- Hw1.
  apply lands_options_event. by eapply callbacks_only_frame.
Qed.

(** There, [add] and the setter of [options] end with the widget as
    they assigned it. *)
Lemma lands_add preprocess (new : PyVal Obj) s w' :
  callbacks_only s →
  BaseSelector.add preprocess new (Selector.widget s) = Ok (tt, w') →
  lands (Reactive.add preprocess Reactive.dispatch new) s w'.
Proof.
  intros Hs Hadd. eapply lands_ext; [apply add_assigning|].
  eapply lands_assigning; [done|].
  eapply lands_bind; [apply lands_store|]. intros s1 Hw1 Hf1.
  eapply lands_bind.
  { apply lands_options_event. by eapply callbacks_only_frame. }
  intros s2 Hw2 Hf2.
  replace w' with (Widget.set_value (Widget.value w') (Selector.widget s2)).
  { apply lands_assign_value.
    eapply callbacks_only_frame; [|done]. by eapply same_frame_trans. }
  rewrite Hw2, Hw1. by destruct w'.
Qed.

Lemma take_1_within (d : odict.t Obj) :
  Forall (λ v, v ∈ odict.values d) (take 1 (odict.values d)).
Proof.
  destruct (odict.values d) as [|v vs]; simpl; [done|].
  apply Forall_singleton, elem_of_cons. by left.
Qed.

Lemma lands_set_options preprocess (new : PyVal Obj) s w' :
  callbacks_only s →
  BaseSelector.set_options preprocess new (Selector.widget s) = Ok (tt, w') →
  lands (Reactive.set_options preprocess Reactive.dispatch new) s w'.
Proof.
  intros Hs Hset. eapply lands_ext; [apply set_options_assigning|].
  eapply lands_assigning; [done|].
  apply set_options_inv in Hset as [_ Hvalue].
  assert (Forall (λ v, v ∈ Widget.values w') (Widget.value w')) as Hin.
  { rewrite Hvalue. apply take_1_within. }
  apply lands_gets.
  destruct (Widget.value (Selector.widget s)) as [|v0 vs] eqn:Hv.
  - eapply lands_bind; [by apply lands_assign_options|]. intros s1 Hw1 Hf1.
    replace w' with (Widget.set_value (Widget.value w') (Selector.widget s1)).
    { apply lands_assign_value. by eapply callbacks_only_frame. }
    rewrite Hw1. by destruct w'.
  - unfold Reactive.set_param. apply lands_gets.
    eapply lands_bind; [apply lands_store|]. intros s1 Hw1 Hf1.
    assert (Selector.widget s1 = w') as Hs1.
    { rewrite Hw1. by destruct w'. }
    eapply lands_bind.
    { apply lands_options_event. by eapply callbacks_only_frame. }
    intros s2 Hw2 Hf2.
    assert (Selector.widget s2 = w') as Hs2.
    { rewrite Hw2, Hs1. unfold Reactive.settle.
      rewrite kept_all by done. apply set_value_same. }
    rewrite <- Hs2. destruct (unchanged _ _).
    + apply lands_ret.
    + apply lands_dispatch.
      eapply callbacks_only_frame; [|done]. by eapply same_frame_trans.
Qed.
End reactive_facts.

(** ** A ready catalog selector *)
Section ready_facts.
Context {Obj World : Type} `{Catalog Obj} `{Countable Obj} `{Toolkit Obj}.
Implicit Types (s : Selector.t Obj World) (w : Widget.t Obj).
Implicit Types (new : list Obj) (notify : Reactive.Notify (Obj:=Obj) (World:=World)).

Local Arguments CatSelector.expand_nested : simpl never.
Local Arguments Reactive.expand_nested : simpl never.
Local Arguments Reactive.collapse_nested : simpl never.
Local Arguments Reactive.remove : simpl never.
Local Arguments Reactive.add : simpl never.
Local Arguments Reactive.set_options : simpl never.
Local Arguments CatSelector.collapse_nested : simpl never.
Local Arguments BaseSelector.remove : simpl never.

(** [expand_nested] leaves the selection to the widget. *)
Lemma expand_nested_value new w w' :
  CatSelector.expand_nested new w = Ok (tt, w') →
  Widget.value w' = Widget.value w.
Proof.
  destruct new as [|got rest]; [by intros [= <-]|]. intros Hexp.
  destruct (decide (got ∈ Widget.values w)) as [Hgot|Hgot].
  - destruct (expand_nested_returns w got rest Hgot) as (w'' & Hw'' & Hv).
    congruence.
  - by rewrite expand_nested_missing in Hexp.
Qed.

Lemma callback_ready new s :
  is_Some (Selector.remove_button s) →
  CatSelector.callback new s =
    Ok (tt, Selector.make (Selector.widget s) (Selector.done_callback s)
              (Some (bool_decide (new = []))) (Selector.watchers s)
              match Selector.done_callback s with
              | Some done => done new (Selector.world s)
              | None => Selector.world s
              end).
Proof.
  intros [b Hb]. unfold CatSelector.callback. run_m. rewrite Hb.
  destruct s as [w0 [cb|] b0 ws x]; done.
Qed.

(** When the options [expand_nested] assigns hold every selected
    object, the watchers of a ready catalog selector run once each:
    the widget is left as [expand_nested] made it, and [callback] has
    set the button and told the caller. *)
Lemma notify_ready n new s w' :
  cat_ready s →
  CatSelector.expand_nested new (Selector.widget s) = Ok (tt, w') →
  Forall (λ v, v ∈ Widget.values w') (Widget.value (Selector.widget s)) →
  Reactive.notify (S n) new s =
    Ok (tt, Selector.make w' (Selector.done_callback s)
              (Some (bool_decide (new = []))) (Selector.watchers s)
              match Selector.done_callback s with
              | Some done => done new (Selector.world s)
              | None => Selector.world s
              end).
Proof.
  intros [Hb Hws] Hexp Hin. simpl. unfold bind at 1, gets. rewrite Hws.
  simpl. unfold bind at 1.
  assert (Reactive.expand_nested (Reactive.notify n) new s =
            Ok (tt, Selector.set_widget w' s)) as ->.
  { destruct new as [|got rest].
    - injection Hexp as <-. by rewrite set_widget_same.
    - rewrite expand_nested_assigning. unfold Reactive.assigning.
      rewrite Hexp. rewrite assign_options_settled by done.
      do 3 f_equal. apply expand_nested_value in Hexp.
      destruct w'; simpl in *. by rewrite Hexp. }
  unfold bind. by rewrite callback_ready.
Qed.
End ready_facts.

(** ** The methods on the reacting widget *)
Section reactive_claims.
Context {Obj World : Type} `{Catalog Obj} `{Countable Obj} `{Toolkit Obj}.
Implicit Types (s : Selector.t Obj World) (w : Widget.t Obj).
Implicit Types (new : list Obj).

Local Arguments CatSelector.expand_nested : simpl never.
Local Arguments Reactive.expand_nested : simpl never.
Local Arguments Reactive.collapse_nested : simpl never.
Local Arguments Reactive.remove : simpl never.
Local Arguments Reactive.add : simpl never.
Local Arguments Reactive.set_options : simpl never.
Local Arguments CatSelector.collapse_nested : simpl never.
Local Arguments BaseSelector.remove : simpl never.
Local Arguments BaseSelector.set_options : simpl never.

Lemma value_watchers_set_widget w s :
  value_watchers (Selector.set_widget w s) = value_watchers s.
Proof. done. Qed.

Lemma remove_inv (items : list (PyVal Obj)) w :
  BaseSelector.remove (PList items) w =
    Ok (tt, {| Widget.options :=
                 filter (λ kv, ¬ py_in kv.2 items) (Widget.options w);
               Widget.value := Widget.value w |}).
Proof. done. Qed.

Lemma elem_of_values_filter (P : string * Obj → Prop)
    `{!∀ kv, Decision (P kv)} (d : odict.t Obj) v :
  v ∈ odict.values (filter P d) ↔ ∃ k, (k, v) ∈ d ∧ P (k, v).
Proof.
  unfold odict.values. rewrite list_elem_of_fmap. split.
  - intros ([k v'] & -> & [? ?]%list_elem_of_filter). by exists k.
  - intros (k & Hin & HP). exists (k, v). split; [done|].
    by apply list_elem_of_filter.
Qed.


(** C5: in a selector whose watchers of the value only tell the
    caller, setting [items] to a named item or a list of named items
    replaces the options by the ordered mapping from each item's name
    to the item, in input order, and selects the value of the first
    option (nothing when there is no option). *)
Theorem set_items_replaces preprocess s (new : PyVal Obj) (os : list Obj) :
  callbacks_only s →
  keeps_objects preprocess →
  new = PList (PObj <$> os) ∨ (∃ o, new = PObj o ∧ os = [o]) →
  ∃ s', Reactive.set_items preprocess Reactive.dispatch new s = Ok (tt, s') ∧
        Widget.options (Selector.widget s') =
          odict.of_pairs ((λ o, (name o, o)) <$> os) ∧
        odict.wf (Widget.options (Selector.widget s')) ∧
        Widget.labels (Selector.widget s') = first_occurrences (name <$> os) ∧
        (∀ k, odict.get k (Widget.options (Selector.widget s')) =
                last (filter (λ o, name o = k) os)) ∧
        (NoDup (name <$> os) →
           Widget.options (Selector.widget s') = (λ o, (name o, o)) <$> os) ∧
        Widget.value (Selector.widget s') =
          match Widget.values (Selector.widget s') with
          | [] => []
          | v :: _ => [v]
          end.
Proof.
  intros Hs Hk Hnew.
  destruct (set_items_named preprocess (Selector.widget s) new os Hk Hnew)
    as (w' & Hset & Hrest).
  assert (Reactive.set_items preprocess Reactive.dispatch new =
            Reactive.set_options preprocess Reactive.dispatch new) as ->.
  { by destruct Hnew as [->|(o & -> & _)]. }
  assert (BaseSelector.set_options preprocess new (Selector.widget s) =
            Ok (tt, w')) as Hopt.
  { rewrite <- Hset. by destruct Hnew as [->|(o & -> & _)]. }
  destruct (lands_set_options preprocess new s w' Hs Hopt)
    as (s' & Hrun & Hw & _).
  exists s'. by rewrite Hw.
Qed.


(** In a [CatSelector] after [setup] the callback is not reached when
    the first selected object is not among the items. *)
Lemma selection_stops s got rest :
  cat_ready s →
  Widget.value (Selector.widget s) ≠ got :: rest →
  got ∉ Widget.values (Selector.widget s) →
  Reactive.change_value (got :: rest) s = Raise StopIteration.
Proof.
  intros [_ Hws] Hne Hgot.
  unfold Reactive.change_value, Reactive.assign_value.
  unfold bind at 1, gets. unfold bind at 1, Reactive.store, modify.
  rewrite (unchanged_ne _ _ Hne).
  unfold Reactive.dispatch, Reactive.notify. unfold bind at 1, gets.
  rewrite value_watchers_set_widget, Hws. simpl.
  unfold bind at 1. rewrite expand_nested_assigning.
  unfold Reactive.assigning. simpl.
  by rewrite expand_nested_missing.
Qed.
End reactive_claims.

(** ** remove_selected on the reacting widget *)
Section remove_selected_facts.
Context {Obj World : Type} `{Catalog Obj} `{Countable Obj} `{Toolkit Obj}.
Implicit Types (s : Selector.t Obj World) (w : Widget.t Obj).

Local Arguments CatSelector.expand_nested : simpl never.
Local Arguments Reactive.expand_nested : simpl never.
Local Arguments Reactive.collapse_nested : simpl never.
Local Arguments Reactive.remove : simpl never.
Local Arguments Reactive.add : simpl never.
Local Arguments Reactive.set_options : simpl never.
Local Arguments CatSelector.collapse_nested : simpl never.
Local Arguments BaseSelector.remove : simpl never.



End remove_selected_facts.

(** ** More about the methods on the reacting widget *)
Section reactive_more.
Context {Obj World : Type} `{Catalog Obj} `{Countable Obj} `{Toolkit Obj}.
Variable preprocess : option (PyVal Obj → PyVal Obj).
Implicit Types (s : Selector.t Obj World) (w : Widget.t Obj).
Implicit Types (new : list Obj) (notify : Reactive.Notify (Obj:=Obj) (World:=World)).

Local Arguments CatSelector.expand_nested : simpl never.
Local Arguments Reactive.expand_nested : simpl never.
Local Arguments Reactive.collapse_nested : simpl never.
Local Arguments Reactive.remove : simpl never.
Local Arguments Reactive.add : simpl never.
Local Arguments Reactive.set_options : simpl never.
Local Arguments CatSelector.collapse_nested : simpl never.
Local Arguments BaseSelector.remove : simpl never.
Local Arguments BaseSelector.add : simpl never.

(** X5: in a selector whose watchers of the value only tell the
    caller, items whose names are pairwise distinct and not yet labels
    are appended to the options under their names, in input order, and
    the first of them becomes the selection. *)
Theorem add_appends s os :
  callbacks_only s →
  keeps_objects preprocess →
  odict.wf (Widget.options (Selector.widget s)) →
  NoDup (name <$> os) →
  (∀ o, o ∈ os → name o ∉ Widget.labels (Selector.widget s)) →
  ∃ s', Reactive.add preprocess Reactive.dispatch (PList (PObj <$> os)) s =
          Ok (tt, s') ∧
        Widget.options (Selector.widget s') =
          Widget.options (Selector.widget s) ++ ((λ o, (name o, o)) <$> os) ∧
        Widget.value (Selector.widget s') = take 1 os.
Proof.
  intros Hs Hk Hwf Hnd Hfresh.
  destruct (lands_add preprocess (PList (PObj <$> os)) s _ Hs
              (add_fresh preprocess _ os Hk Hwf Hnd Hfresh))
    as (s' & Hrun & Hw & _).
  exists s'. by rewrite Hw.
Qed.


(** X7: in such a selector, adding items with new, pairwise distinct
    names and values that the widget does not hold yet, and removing the
    same items again, gives back the options as they were; nothing is
    selected afterwards. *)
Theorem add_remove_round_trip s os :
  callbacks_only s →
  keeps_objects preprocess →
  odict.wf (Widget.options (Selector.widget s)) →
  NoDup (name <$> os) →
  (∀ o, o ∈ os → name o ∉ Widget.labels (Selector.widget s)) →
  (∀ o, o ∈ os → o ∉ Widget.values (Selector.widget s)) →
  ∃ s', (let* _ := Reactive.add preprocess Reactive.dispatch
                     (PList (PObj <$> os)) in
         Reactive.remove Reactive.dispatch (PList (PObj <$> os))) s =
          Ok (tt, s') ∧
        Widget.options (Selector.widget s') =
          Widget.options (Selector.widget s) ∧
        Widget.value (Selector.widget s') = [].
Proof.
  intros Hs Hk Hwf Hnd Hfresh Hnew.
  set (w := Selector.widget s) in *.
  assert (filter (λ kv : string * Obj, ¬ py_in kv.2 (PObj <$> os))
            (Widget.options w ++ ((λ o, (name o, o)) <$> os)) =
          Widget.options w) as Hback.
  { rewrite (filter_app (λ kv : string * Obj, ¬ py_in kv.2 (PObj <$> os))
               (Widget.options w)).
    rewrite (filter_keep_all _ (Widget.options w)).
    2:{ apply Forall_forall. intros [k v] Hin. simpl.
        rewrite py_in_objects. intros Ho.
        apply (Hnew v Ho). apply list_elem_of_fmap. by exists (k, v). }
    rewrite filter_none; [by rewrite app_nil_r|].
    apply Forall_forall. intros [k v] Hin Hnot. apply Hnot. simpl.
    apply list_elem_of_fmap in Hin as (o & [= -> ->] & Ho).
    by apply py_in_objects. }
  assert (lands (let* _ := Reactive.add preprocess Reactive.dispatch
                             (PList (PObj <$> os)) in
                 Reactive.remove Reactive.dispatch (PList (PObj <$> os))) s
            (Reactive.settle {| Widget.options := Widget.options w;
                                Widget.value := take 1 os |}))
    as (s' & Hrun & Hw & _).
  { eapply lands_bind.
    { apply (lands_add preprocess _ s _ Hs).
      apply (add_fresh preprocess _ os Hk Hwf Hnd Hfresh). }
    intros s1 Hw1 Hf1. apply lands_remove; [by eapply callbacks_only_frame|].
    rewrite Hw1, remove_inv. simpl. do 3 f_equal. apply Hback. }
  exists s'. rewrite Hw. split_and!; [done..|].
  unfold Reactive.settle, Reactive.kept, Widget.values. simpl.
  apply filter_none, Forall_forall. intros v Hv.
  apply Hnew. by eapply subseteq_take.
Qed.

(** X9: in such a selector, removing [a] and then [b] leaves the
    widget as removing [a ++ b] at once does, and removing the same
    items a second time changes nothing. *)
Theorem remove_twice s (a b : list (PyVal Obj)) :
  callbacks_only s →
  (∃ s1 s2,
     (let* _ := Reactive.remove Reactive.dispatch (PList a) in
      Reactive.remove Reactive.dispatch (PList b)) s = Ok (tt, s1) ∧
     Reactive.remove Reactive.dispatch (PList (a ++ b)) s = Ok (tt, s2) ∧
     Selector.widget s1 = Selector.widget s2) ∧
  (∀ s1, Reactive.remove Reactive.dispatch (PList a) s = Ok (tt, s1) →
         Reactive.remove Reactive.dispatch (PList a) s1 = Ok (tt, s1)).
Proof.
  intros Hs. set (w := Selector.widget s).
  destruct (lands_remove (PList a) s _ Hs (remove_inv a _))
    as (sa & Hruna & Hwa & Hfa). fold w in Hwa.
  split.
  - assert (callbacks_only sa) as Hsa by by eapply callbacks_only_frame.
    destruct (lands_remove (PList b) sa _ Hsa (remove_inv b _))
      as (sab & Hrunab & Hwab & _).
    destruct (lands_remove (PList (a ++ b)) s _ Hs (remove_inv (a ++ b) _))
      as (s2 & Hrun2 & Hw2 & _). fold w in Hw2.
    exists sab, s2. split_and!; [|done|].
    + unfold bind. by rewrite Hruna.
    + rewrite Hwab, Hw2, Hwa.
      unfold Reactive.settle, Reactive.kept, Widget.set_value, Widget.values.
      simpl.
      assert (filter (λ kv : string * Obj, ¬ py_in kv.2 b)
                (filter (λ kv : string * Obj, ¬ py_in kv.2 a)
                   (Widget.options w)) =
              filter (λ kv : string * Obj, ¬ py_in kv.2 (a ++ b))
                (Widget.options w)) as ->.
      { rewrite (list_filter_filter _ _ (Widget.options w)).
        apply list_filter_iff. intros [k v]. simpl. rewrite py_in_app. tauto. }
      f_equal. rewrite (list_filter_filter _ _ (Widget.value w)).
      apply list_filter_iff. intros v. split; [tauto|]. intros Hv.
      split; [done|].
      apply elem_of_values_filter in Hv as (k & Hkv & Hnot).
      apply elem_of_values_filter. exists k. split; [done|]. simpl in *.
      rewrite py_in_app in Hnot. tauto.
  - intros s1 Hrun1. assert (s1 = sa) as -> by congruence.
    assert (filter (λ kv : string * Obj, ¬ py_in kv.2 a)
              (Widget.options (Selector.widget sa)) =
            Widget.options (Selector.widget sa)) as Hsame.
    { rewrite Hwa. simpl.
      rewrite (list_filter_filter _ _ (Widget.options w)).
      apply list_filter_iff. intros [k v]. simpl. tauto. }
    assert (Forall (λ v, v ∈ Widget.values (Selector.widget sa))
              (Widget.value (Selector.widget sa))) as Hin.
    { rewrite Hwa. apply Forall_forall. intros v Hv.
      by apply kept_within in Hv. }
    rewrite remove_assigning. unfold Reactive.assigning.
    rewrite remove_inv. simpl.
    rewrite Hsame. unfold bind.
    rewrite assign_options_settled by done.
    rewrite set_options_same, set_widget_same.
    by apply options_event_settled.
Qed.

(** X11: [expand_nested] does nothing for an empty selection and
    raises [StopIteration] when the first selected object is not among
    the items; otherwise it assigns options in which every label that
    was there is still a label, and when these options hold every
    selected object the widget is left with them, the selection as it
    was and no watcher called. *)
Theorem expand_nested_cases notify s new :
  match new with
  | [] => Reactive.expand_nested notify new s = Ok (tt, s)
  | got :: _ =>
      if decide (got ∈ Widget.values (Selector.widget s)) then
        ∃ w', CatSelector.expand_nested new (Selector.widget s) = Ok (tt, w') ∧
              Reactive.expand_nested notify new s =
                Reactive.assign_options notify (Widget.options w') s ∧
              Widget.labels (Selector.widget s) ⊆ Widget.labels w' ∧
              odict.wf (Widget.options w') ∧
              (Forall (λ v, v ∈ Widget.values w')
                 (Widget.value (Selector.widget s)) →
               Reactive.expand_nested notify new s =
                 Ok (tt, Selector.set_widget w' s))
      else Reactive.expand_nested notify new s = Raise StopIteration
  end.
Proof.
  destruct new as [|got rest]; [done|].
  pose proof (expand_nested_outcome (Selector.widget s) (got :: rest)) as Hout.
  simpl in Hout.
  destruct (decide (got ∈ Widget.values (Selector.widget s))) as [Hgot|Hgot].
  - destruct Hout as (w' & Hexp & Hvalue & Hlabels & Hwf).
    exists w'. split_and!; [done| |done..|].
    + rewrite expand_nested_assigning. unfold Reactive.assigning.
      by rewrite Hexp.
    + intros Hin. rewrite expand_nested_assigning. unfold Reactive.assigning.
      rewrite Hexp. rewrite assign_options_settled by done.
      do 3 f_equal. destruct w'; simpl in *. by rewrite Hvalue.
  - rewrite expand_nested_assigning. unfold Reactive.assigning.
    by rewrite Hout.
Qed.

(** X16: in a [CatSelector] after [setup], a change of the selection
    for which [expand_nested] returns and leaves every selected object
    among the values of the options leaves the widget as
    [expand_nested] makes it, disables the remove button exactly when
    the new selection is empty, and keeps the watchers. *)
Theorem cat_selection_widget s new w' :
  cat_ready s →
  Widget.value (Selector.widget s) ≠ new →
  CatSelector.expand_nested new (Widget.set_value new (Selector.widget s)) =
    Ok (tt, w') →
  Forall (λ v, v ∈ Widget.values w') new →
  ∃ s', Reactive.change_value new s = Ok (tt, s') ∧
        Selector.widget s' = w' ∧
        Selector.remove_button s' = Some (bool_decide (new = [])) ∧
        Selector.watchers s' = Selector.watchers s.
Proof.
  intros Hs Hne Hexp Hin.
  unfold Reactive.change_value, Reactive.assign_value.
  unfold bind at 1, gets. unfold bind at 1, Reactive.store, modify.
  rewrite (unchanged_ne _ _ Hne).
  unfold Reactive.dispatch. erewrite notify_ready; [|done..].
  by eexists.
Qed.
End reactive_more.

(** ** The reactions come to an end *)
Section reactions_end.
Context {Obj World : Type} `{Catalog Obj} `{Countable Obj} `{Toolkit Obj}.
Implicit Types (s : Selector.t Obj World) (w : Widget.t Obj).
Implicit Types (new : list Obj) (notify : Reactive.Notify (Obj:=Obj) (World:=World)).

Local Arguments CatSelector.expand_nested : simpl never.
Local Arguments Reactive.expand_nested : simpl never.
Local Arguments Reactive.collapse_nested : simpl never.
Local Arguments Reactive.remove : simpl never.
Local Arguments Reactive.add : simpl never.
Local Arguments Reactive.set_options : simpl never.
Local Arguments CatSelector.collapse_nested : simpl never.
Local Arguments BaseSelector.remove : simpl never.

Lemma keeps_setup_refl s : keeps_setup s s.
Proof. done. Qed.

Lemma keeps_setup_trans s1 s2 s3 :
  keeps_setup s1 s2 → keeps_setup s2 s3 → keeps_setup s1 s3.
Proof.
  intros (Hw & Hd & Hb) (Hw' & Hd' & Hb'). unfold keeps_setup.
  split_and!; [by etrans..|]. intros Hsome. by apply Hb', Hb.
Qed.

Lemma keeps_setup_ready s s' : keeps_setup s s' → cat_ready s → cat_ready s'.
Proof.
  intros (Hw & _ & Hb) [Hsome Hws]. split; [by apply Hb|].
  unfold value_watchers in *. by rewrite Hw.
Qed.

Lemma calm_ret s : calm (ret tt) s.
Proof. split; [done|]. by intros s' [= <-]. Qed.

Lemma calm_bind (m k : M (Selector.t Obj World) unit) s :
  calm m s →
  (∀ s1, m s = Ok (tt, s1) →
         length (Widget.value (Selector.widget s1)) ≤
         length (Widget.value (Selector.widget s)) →
         calm k s1) →
  calm (let* _ := m in k) s.
Proof.
  intros [Hend Hlen] Hk. unfold calm, bind.
  destruct (m s) as [[[] s1]| |]; [|done..].
  destruct (Hlen s1 eq_refl) as [Hlen1 Hset1].
  destruct (Hk s1 eq_refl Hlen1) as [Hend' Hlen'].
  split; [done|]. intros s' Hs'. destruct (Hlen' s' Hs') as [Hlen2 Hset2].
  split; [lia|]. by eapply keeps_setup_trans.
Qed.

Lemma calm_store_options (o : odict.t Obj) s :
  calm (Reactive.store (Widget.set_options o)) s.
Proof. split; [done|]. by intros s' [= <-]. Qed.

Lemma kept_shorter w :
  Reactive.kept w ≠ Widget.value w →
  length (Reactive.kept w) < length (Widget.value w).
Proof.
  intros Hne. unfold Reactive.kept in *.
  destruct (decide (Forall (λ v, v ∈ Widget.values w) (Widget.value w)))
    as [Hall|Hsome].
  - destruct Hne. by apply filter_keep_all.
  - apply not_Forall_Exists in Hsome; [|apply _].
    apply Exists_exists in Hsome as (v & Hv & Hnot).
    by apply (length_filter_lt _ _ v).
Qed.

Lemma calm_options_event n notify s :
  calm_below n notify →
  length (Widget.value (Selector.widget s)) ≤ n →
  calm (Reactive.options_event notify) s.
Proof.
  intros Hk Hn. unfold Reactive.options_event. unfold calm, bind, gets.
  destruct (decide _) as [Heq|Hne]; [apply calm_ret|].
  apply kept_shorter in Hne.
  unfold Reactive.assign_value, Reactive.store, modify, bind, gets. simpl.
  destruct (unchanged _ _).
  - split; [done|]. intros s' [= <-]. simpl. split; [lia|done].
  - match goal with |- notify ?v ?s1 ≠ _ ∧ _ =>
      destruct (Hk v s1) as [Hend Hlen]; [simpl; lia..|] end.
    split; [done|]. intros s' Hs'. destruct (Hlen s' Hs') as [Hlen' Hset].
    simpl in Hlen'. split; [lia|done].
Qed.

Lemma calm_assign_options n notify (o : odict.t Obj) s :
  calm_below n notify →
  length (Widget.value (Selector.widget s)) ≤ n →
  calm (Reactive.assign_options notify o) s.
Proof.
  intros Hk Hn. unfold Reactive.assign_options.
  apply calm_bind; [apply calm_store_options|].
  intros s1 [= <-] _. by apply (calm_options_event n).
Qed.

(** An assignment of the options followed by
    [param.trigger('options')]. *)
Lemma calm_assign_trigger n notify (o : odict.t Obj) s :
  calm_below n notify →
  length (Widget.value (Selector.widget s)) ≤ n →
  calm (let* _ := Reactive.assign_options notify o in
        Reactive.options_event notify) s.
Proof.
  intros Hk Hn. apply calm_bind; [by apply (calm_assign_options n)|].
  intros s1 _ Hlen. apply (calm_options_event n); [done|lia].
Qed.

Lemma calm_ext (m m' : M (Selector.t Obj World) unit) s :
  m s = m' s → calm m' s → calm m s.
Proof. intros Heq. unfold calm. by rewrite Heq. Qed.

Lemma calm_assigning {A} (m : M (Widget.t Obj) A) k s :
  m (Selector.widget s) ≠ OutOfFuel →
  (∀ a w', m (Selector.widget s) = Ok (a, w') → calm (k w') s) →
  calm (Reactive.assigning m k) s.
Proof.
  intros Hend Hk. unfold calm, Reactive.assigning.
  destruct (m (Selector.widget s)) as [[a w']| |]; [|done..].
  by apply (Hk a w').
Qed.

Lemma calm_expand_nested n notify new s :
  calm_below n notify →
  length (Widget.value (Selector.widget s)) ≤ n →
  calm (Reactive.expand_nested notify new) s.
Proof.
  intros Hk Hn. destruct new as [|got rest]; [apply calm_ret|].
  eapply calm_ext; [apply expand_nested_assigning|].
  apply calm_assigning.
  - pose proof (expand_nested_outcome (Selector.widget s) (got :: rest)) as Hout.
    simpl in Hout. destruct (decide _); [|by rewrite Hout].
    destruct Hout as (w' & -> & _). done.
  - intros a w' _. by apply (calm_assign_options n).
Qed.

Lemma calm_remove n notify (items : PyVal Obj) s :
  calm_below n notify →
  length (Widget.value (Selector.widget s)) ≤ n →
  calm (Reactive.remove notify items) s.
Proof.
  intros Hk Hn. eapply calm_ext; [apply remove_assigning|].
  apply calm_assigning; [done|].
  intros a w' _. by apply (calm_assign_trigger n).
Qed.

Lemma calm_collapse_nested n notify cats s :
  calm_below n notify →
  length (Widget.value (Selector.widget s)) ≤ n →
  calm (Reactive.collapse_nested notify cats 10) s.
Proof.
  intros Hk Hn. eapply calm_ext; [apply collapse_nested_assigning|].
  apply calm_assigning.
  - destruct (collapse_nested_filter (Selector.widget s) cats 10)
      as (ch & -> & _); [lia|done].
  - intros a w' _. by apply (calm_assign_trigger n).
Qed.

Lemma calm_remove_selected n notify s :
  calm_below n notify →
  length (Widget.value (Selector.widget s)) ≤ n →
  calm (Reactive.remove_selected notify) s.
Proof.
  intros Hk Hn. unfold Reactive.remove_selected.
  change (calm (let* _ := Reactive.collapse_nested notify
                            (Widget.value (Selector.widget s)) 10 in
                let* sel := gets (λ s, Widget.value (Selector.widget s)) in
                Reactive.remove notify (PList (PObj <$> sel))) s).
  apply calm_bind; [by apply (calm_collapse_nested n)|].
  intros s1 _ Hlen.
  change (calm (Reactive.remove notify
                  (PList (PObj <$> Widget.value (Selector.widget s1)))) s1).
  apply (calm_remove n); [done|lia].
Qed.

Lemma calm_callback new s : calm (CatSelector.callback new) s.
Proof.
  unfold calm, CatSelector.callback. run_m.
  destruct s as [w0 [cb|] [b|] ws x]; simpl; split; try done;
    intros s' [= <-]; (split; [done|]); (split_and!; [done..|by eexists]).
Qed.

Lemma calm_source_callback new s : calm (SourceSelector.callback new) s.
Proof.
  unfold calm, SourceSelector.callback. run_m.
  destruct s as [w0 [cb|] b ws x]; simpl; split; try done;
    by intros s' [= <-].
Qed.

Lemma calm_run_handlers n notify hs new s :
  calm_below n notify →
  length (Widget.value (Selector.widget s)) ≤ n →
  calm (Reactive.run_handlers notify hs new) s.
Proof.
  intros Hk. revert s. induction hs as [|h hs IH]; intros s Hn;
    [apply calm_ret|].
  simpl. apply calm_bind.
  - destruct h; simpl.
    + by apply (calm_remove_selected n).
    + by apply (calm_expand_nested n).
    + apply calm_callback.
    + apply calm_source_callback.
  - intros s1 _ Hlen. apply IH. lia.
Qed.

(** The watchers called with [n] levels to spare are calm wherever
    fewer than [n] objects are selected: a reaction within a reaction
    is to a selection that has lost at least one object. *)
Lemma notify_calm n : calm_below n (Reactive.notify (Obj:=Obj) (World:=World) n).
Proof.
  induction n as [|n IH]; intros v s Hle Hn; [lia|].
  simpl. unfold calm, bind, gets.
  apply (calm_run_handlers n); [done|lia].
Qed.

Lemma dispatch_calm n : calm_below n (Reactive.dispatch (Obj:=Obj) (World:=World)).
Proof.
  intros v s Hle _. unfold Reactive.dispatch.
  apply (notify_calm (S (length v))); [done|lia].
Qed.

(** However the watchers are registered, the reactions to a change
    of the selection come to an end, and a selector that was set up
    stays set up. *)
Lemma change_value_ends new s :
  Reactive.change_value new s ≠ OutOfFuel ∧
  ∀ s', Reactive.change_value new s = Ok (tt, s') → keeps_setup s s'.
Proof.
  unfold Reactive.change_value, Reactive.assign_value.
  unfold bind, gets, Reactive.store, modify.
  destruct (unchanged _ _).
  - split; [done|]. by intros s' [= <-].
  - match goal with |- Reactive.dispatch new ?s1 ≠ _ ∧ _ =>
      destruct (dispatch_calm (S (length new)) new s1) as [Hend Hset];
        [done|lia|] end.
    split; [done|]. intros s' Hs'. by destruct (Hset s' Hs') as [_ ?].
Qed.

(** So do the reactions to what [remove] and [remove_selected]
    assign. *)
Lemma remove_ends (items : PyVal Obj) s :
  calm (Reactive.remove Reactive.dispatch items) s.
Proof.
  eapply (calm_remove (length (Widget.value (Selector.widget s))));
    [apply dispatch_calm|done].
Qed.

Lemma remove_selected_ends s :
  calm (Reactive.remove_selected Reactive.dispatch) s.
Proof.
  eapply (calm_remove_selected (length (Widget.value (Selector.widget s))));
    [apply dispatch_calm|done].
Qed.

(** A catalog selector that is ready stays ready, whatever is
    selected or removed. *)
Lemma change_value_ready new s s' :
  cat_ready s → Reactive.change_value new s = Ok (tt, s') → cat_ready s'.
Proof.
  intros Hs Hrun. eapply keeps_setup_ready; [|done].
  by apply (change_value_ends new s).
Qed.

Lemma remove_ready (items : PyVal Obj) s s' :
  cat_ready s →
  Reactive.remove Reactive.dispatch items s = Ok (tt, s') →
  cat_ready s'.
Proof.
  intros Hs Hrun. eapply keeps_setup_ready; [|done].
  by apply (remove_ends items s).
Qed.

Lemma remove_selected_ready s s' :
  cat_ready s →
  Reactive.remove_selected Reactive.dispatch s = Ok (tt, s') →
  cat_ready s'.
Proof.
  intros Hs Hrun. eapply keeps_setup_ready; [|done].
  by apply (remove_selected_ends s).
Qed.
End reactions_end.

(** * The statements at concrete inputs *)
Section examples.
Import Demo.

Lemma wf_widget_AB : odict.wf (Widget.options widget_AB).
Proof. apply (bool_decide_unpack _). by vm_compute. Defined.

(** Expanding [A], then its child [x], then [B], and selecting [A]
    again leads to [widget_collided]. *)
Example widget_collided_reachable :
  (let* _ := CatSelector.expand_nested [0] in
   let* _ := CatSelector.expand_nested [2] in
   let* _ := CatSelector.expand_nested [1] in
   modify (Widget.set_value [0])) widget_AB = Ok (tt, widget_collided).
Proof. by vm_compute. Qed.

Lemma coerce_to_list_spec_witness :
  isinstance_list (PObj 0) = false ∧
  coerce_to_list (PList [PObj 0; PNone]) (Some CatSelector.preprocess)
    = CatSelector.preprocess <$> [PObj 0; PNone] ∧
  coerce_to_list (PObj 0) (Some CatSelector.preprocess)
    = [CatSelector.preprocess (PObj 0)].
Proof.
  split; [reflexivity|]. split.
  - apply (coerce_to_list_spec (PList [PObj 0; PNone]) CatSelector.preprocess).
    reflexivity.
  - apply (coerce_to_list_spec (PObj 0) CatSelector.preprocess). reflexivity.
Defined.

(** Decide a closed statement by evaluation. *)
Ltac by_eval := apply (bool_decide_unpack _); vm_compute; exact I.

(** Two items of one call that share a name: only the last is kept. *)
Lemma add_drops_same_name :
  BaseSelector.add None (PList [PObj 8; PObj 10]) widget_AB =
    Ok (tt, {| Widget.options := [("A", 0); ("B", 1); ("A_0", 10)];
               Widget.value := [10] |}) ∧
  name 8 ∈ Widget.labels widget_AB ∧
  (8 ∉ Widget.values widget_AB) ∧
  ¬ ∃ N, odict.get (BaseSelector.suffixed (name 8) N)
           [("A", 0); ("B", 1); ("A_0", 10)] = Some 8.
Proof.
  split; [by vm_compute|]. split; [by_eval|]. split; [by_eval|].
  intros (N & Hget%odict_get_Some).
  assert (8 ∈ [("A", 0); ("B", 1); ("A_0", 10)].*2) as Hin.
  { apply list_elem_of_fmap. by eexists (_, 8). }
  revert Hin. by_eval.
Qed.

Lemma add_renames_witness :
  odict.wf (Widget.options widget_AB) ∧
  BaseSelector.add None (PList [PObj 1; PObj 8]) widget_AB =
    Ok (tt, {| Widget.options := [("A", 0); ("B", 1); ("A_0", 8)];
               Widget.value := [1] |}) ∧
  ∃ created,
    BaseSelector._create_options None (PList [PObj 1; PObj 8]) = Ok created ∧
    (∀ k v, (k, v) ∈ created →
            k ∈ Widget.labels widget_AB → v ∉ Widget.values widget_AB →
       ∃ N, (BaseSelector.suffixed k N ∉ Widget.labels widget_AB) ∧
            (∀ n, n < N → BaseSelector.suffixed k n ∈ Widget.labels widget_AB) ∧
            odict.get (BaseSelector.suffixed k N)
              [("A", 0); ("B", 1); ("A_0", 8)] = Some v) ∧
    odict.wf [("A", 0); ("B", 1); ("A_0", 8)].
Proof.
  assert (BaseSelector.add None (PList [PObj 1; PObj 8]) widget_AB =
    Ok (tt, {| Widget.options := [("A", 0); ("B", 1); ("A_0", 8)];
               Widget.value := [1] |})) as Hadd by (by vm_compute).
  split; [exact wf_widget_AB|]. split; [exact Hadd|].
  exact (add_renames None _ _ _ wf_widget_AB Hadd).
Defined.

(** The first child of [A] would get the label that the child of [B]
    has: it is not inserted, and the child of [B], which stood behind
    [B], now stands in front of it. *)
Lemma expand_nested_collides :
  CatSelector.expand_nested [0] widget_B_expanded =
    Ok (tt, {| Widget.options := [("A", 0); ("└── x", 4); ("└── y", 3); ("B", 1)];
               Widget.value := [1] |}) ∧
  2 ∈ CatSelector.get_children 0 ∧
  (2 ∉ [0; 4; 3; 1]) ∧
  Widget.options widget_B_expanded !! 1 = Some ("B", 1) ∧
  Widget.options widget_B_expanded !! 2 = Some ("└── x", 4) ∧
  [("A", 0); ("└── x", 4); ("└── y", 3); ("B", 1)] !! 1 = Some ("└── x", 4) ∧
  [("A", 0); ("└── x", 4); ("└── y", 3); ("B", 1)] !! 3 = Some ("B", 1).
Proof.
  split; [by vm_compute|]. split; [by_eval|]. split; [by_eval|].
  by split_and!.
Qed.

Lemma expand_nested_inserts_witness :
  odict.wf (Widget.options widget_AB) ∧
  Widget.options widget_AB = [] ++ ("A", 0) :: [("B", 1)] ∧
  Forall (λ kv : string * nat, kv.2 ≠ 0) [] ∧
  NoDup (nested_label "A" <$> CatSelector.get_children 0) ∧
  (∀ c, c ∈ CatSelector.get_children 0 →
        nested_label "A" c ∉ Widget.labels widget_AB) ∧
  CatSelector.expand_nested [0] widget_AB =
    Ok (tt, {| Widget.options :=
                 [] ++ ("A", 0) ::
                   ((λ c, (nested_label "A" c, c)) <$>
                      CatSelector.get_children 0) ++ [("B", 1)];
               Widget.value := Widget.value widget_AB |}).
Proof.
  assert (NoDup (nested_label "A" <$> CatSelector.get_children 0)) as Hnd
    by by_eval.
  assert (∀ c, c ∈ CatSelector.get_children 0 →
               nested_label "A" c ∉ Widget.labels widget_AB) as Hfresh.
  { intros c Hc. change (c ∈ [2; 3]) in Hc.
    apply elem_of_cons in Hc as [->|Hc]; [by_eval|].
    apply list_elem_of_singleton in Hc as ->. by_eval. }
  split_and!; [exact wf_widget_AB|reflexivity|constructor|exact Hnd|exact Hfresh|].
  exact (expand_nested_inserts widget_AB [] "A" 0 [("B", 1)] []
           wf_widget_AB eq_refl (Forall_nil_2 _) Hnd Hfresh).
Defined.

Lemma views_of_widget_witness :
  odict.wf (Widget.options widget_AB) ∧
  BaseSelector.labels widget_AB = Ok (["A"; "B"], widget_AB) ∧
  BaseSelector.items widget_AB = Ok ([0; 1], widget_AB) ∧
  BaseSelector.options widget_AB = Ok ([("A", 0); ("B", 1)], widget_AB) ∧
  BaseSelector.selected widget_AB = Ok ([], widget_AB) ∧
  Widget.options widget_AB = zip ["A"; "B"] [0; 1] ∧
  Widget.options widget_AB = odict.of_pairs (zip ["A"; "B"] [0; 1]).
Proof.
  split; [exact wf_widget_AB|].
  exact (views_of_widget widget_AB wf_widget_AB).
Defined.

Lemma set_items_None_witness :
  BaseSelector.set_items None PNone widget_AB = Ok (tt, widget_AB) ∧
  PObj 0 ≠ PNone ∧
  BaseSelector.set_items None (PObj 0) widget_AB =
    BaseSelector.set_options None (PObj 0) widget_AB.
Proof.
  destruct (set_items_None None widget_AB) as (Hnone & Hother & _).
  split; [exact Hnone|]. split; [discriminate|].
  apply Hother. discriminate.
Defined.

Lemma collapse_nested_terminates_witness :
  (0 < 10)%Z ∧
  (∃ n st,
      runs CatSelector.collapse_cond
        (CatSelector.collapse_body (list_to_set [7; 6])) n
        (CatSelector.collapse_init (Widget.values widget_cycle) [6] 10) st ∧
      (Z.of_nat n ≤ 10)%Z) ∧
  (∃ w', CatSelector.collapse_nested [6] 10 widget_cycle = Ok (tt, w')).
Proof.
  assert (0 < 10)%Z as Hpos by lia.
  split; [exact Hpos|].
  exact (collapse_nested_terminates widget_cycle [6] (list_to_set [7; 6]) 10 Hpos).
Defined.

(** The cyclic parent links cost one pass per catalog. *)
Example collapse_cycle :
  CatSelector.collapse_nested [6] 10 widget_cycle =
    Ok (tt, {| Widget.options := []; Widget.value := [6] |}).
Proof. by vm_compute. Qed.

End examples.

(** * Further statements at concrete inputs *)
Section more_examples.
Import Demo.

Ltac by_eval := apply (bool_decide_unpack _); vm_compute; exact I.

Lemma keeps_objects_None : keeps_objects (Obj:=nat) None.
Proof. by intros f [=]. Defined.

Lemma add_raises_witness :
  BaseSelector._create_options None (PList [PObj 8; PObj 4]) =
    Ok ([] ++ ("A", 8) :: ("x", 4) :: []) ∧
  Forall (λ kv, ¬ conflicts (Widget.labels widget_AB)
                  (Widget.values widget_AB) kv) [] ∧
  conflicts (Widget.labels widget_AB) (Widget.values widget_AB) ("A", 8) ∧
  BaseSelector.add None (PList [PObj 8; PObj 4]) widget_AB = Raise RuntimeError.
Proof.
  assert (conflicts (Widget.labels widget_AB) (Widget.values widget_AB) ("A", 8))
    as Hc by by_eval.
  split_and!; [reflexivity|constructor|exact Hc|].
  exact (add_raises None (PList [PObj 8; PObj 4]) [] "A" 8 ("x", 4) []
           widget_AB eq_refl (Forall_nil_2 _) Hc).
Defined.

Lemma fresh_names_xy :
  ∀ o, o ∈ [2; 3] → name o ∉ Widget.labels widget_AB.
Proof.
  intros o Ho. apply elem_of_cons in Ho as [->|Ho]; [by_eval|].
  apply list_elem_of_singleton in Ho as ->. by_eval.
Defined.

Lemma fresh_values_xy :
  ∀ o, o ∈ [2; 3] → o ∉ Widget.values widget_AB.
Proof.
  intros o Ho. apply elem_of_cons in Ho as [->|Ho]; [by_eval|].
  apply list_elem_of_singleton in Ho as ->. by_eval.
Defined.

Lemma nodup_names_xy : NoDup (name <$> [2; 3]).
Proof. by_eval. Defined.

Lemma create_options_unnamed_witness :
  PStr "a" ∈ coerce_to_list (PList [PObj 0; PStr "a"]) None ∧
  (∀ o : nat, PStr "a" ≠ PObj o) ∧
  BaseSelector._create_options None (PList [PObj 0; PStr "a"])
    = Raise AttributeError ∧
  (PList [PObj 0; PStr "a"] ≠ PNone →
   BaseSelector.set_items None (PList [PObj 0; PStr "a"]) widget_AB
     = Raise AttributeError) ∧
  BaseSelector.add None (PList [PObj 0; PStr "a"]) widget_AB
    = Raise AttributeError.
Proof.
  assert (PStr "a" ∈ coerce_to_list (PList [PObj 0; PStr "a"]) None) as Hin.
  { simpl. apply elem_of_cons. right. apply elem_of_cons. by left. }
  assert (∀ o : nat, PStr "a" ≠ PObj o) as Hnot by discriminate.
  split; [exact Hin|]. split; [exact Hnot|].
  exact (create_options_unnamed (PList [PObj 0; PStr "a"]) (PStr "a")
           widget_AB Hin Hnot).
Defined.


Lemma nodup_children_A :
  NoDup (nested_label "A" <$> CatSelector.get_children 0).
Proof. by_eval. Defined.

Lemma fresh_children_A :
  ∀ c, c ∈ CatSelector.get_children 0 →
       nested_label "A" c ∉ Widget.labels widget_AB.
Proof.
  intros c Hc. change (c ∈ [2; 3]) in Hc.
  apply elem_of_cons in Hc as [->|Hc]; [by_eval|].
  apply list_elem_of_singleton in Hc as ->. by_eval.
Defined.

Lemma expand_nested_idempotent_witness :
  odict.wf (Widget.options widget_AB) ∧
  Widget.options widget_AB = [] ++ ("A", 0) :: [("B", 1)] ∧
  Forall (λ kv : string * nat, kv.2 ≠ 0) [] ∧
  NoDup (nested_label "A" <$> CatSelector.get_children 0) ∧
  (∀ c, c ∈ CatSelector.get_children 0 →
        nested_label "A" c ∉ Widget.labels widget_AB) ∧
  (let* _ := CatSelector.expand_nested [0] in
   CatSelector.expand_nested [0]) widget_AB =
    CatSelector.expand_nested [0] widget_AB.
Proof.
  split_and!; [exact wf_widget_AB|reflexivity|constructor
              |exact nodup_children_A|exact fresh_children_A|].
  exact (expand_nested_idempotent widget_AB [] "A" 0 [("B", 1)]
           wf_widget_AB eq_refl (Forall_nil_2 _)
           nodup_children_A fresh_children_A).
Defined.




Lemma collapse_nested_noop_witness :
  ([0] = [] ∨ (0 ≤ 0)%Z) ∧
  CatSelector.collapse_nested [0] 0 widget_collided = Ok (tt, widget_collided).
Proof.
  assert ([0] = [] ∨ (0 ≤ 0)%Z) as Hnone by (right; lia).
  split; [exact Hnone|].
  exact (collapse_nested_noop widget_collided [0] 0 Hnone).
Defined.

Lemma remove_selected_nothing_witness :
  Widget.value widget_AB = [] ∧
  CatSelector.remove_selected widget_AB = Ok (tt, widget_AB).
Proof.
  split; [reflexivity|].
  exact (remove_selected_nothing widget_AB eq_refl).
Defined.

Lemma source_selection_frame_witness :
  let s := Selector.make widget_AB (Some log_call) None
             [ (SourceSelector_callback, value) ] [] in
  SourceSelector.setup selector_AB = Ok (tt, s) ∧
  Widget.value (Selector.widget s) ≠ [1] ∧
  ∃ s', change_value [1] s = Ok (tt, s') ∧
        Selector.widget s' = Widget.set_value [1] (Selector.widget s) ∧
        Selector.remove_button s' = Selector.remove_button s ∧
        Selector.watchers s' = Selector.watchers s.
Proof.
  intros s.
  assert (Widget.value (Selector.widget s) ≠ [1]) as Hnew by discriminate.
  split_and!; [reflexivity|exact Hnew|].
  exact (source_selection_frame selector_AB s [1] eq_refl Hnew).
Defined.

Lemma select_after_set_items_witness :
  keeps_objects (Obj:=nat) None ∧
  NoDup (name <$> [2; 3]) ∧
  3 ∈ [2; 3] ∧
  ∃ w', BaseSelector.set_items None (PList (PObj <$> [2; 3])) widget_AB
          = Ok (tt, w') ∧
        BaseSelector.selected_items (PStr (name 3)) w' = Ok ([PObj 3], w').
Proof.
  assert (3 ∈ [2; 3]) as Hin by by_eval.
  split_and!; [exact keeps_objects_None|exact nodup_names_xy|exact Hin|].
  exact (select_after_set_items None widget_AB [2; 3] 3 keeps_objects_None
           nodup_names_xy Hin).
Defined.

Lemma set_cats_unnamed_witness :
  PNone ∈ coerce_to_list (PNone : PyVal nat) None ∧
  (∀ o : nat, PNone ≠ PObj o) ∧
  SourceSelector.set_cats PNone widget_AB = Raise AttributeError.
Proof.
  assert (PNone ∈ coerce_to_list (PNone : PyVal nat) None) as Hin.
  { simpl. apply elem_of_cons. by left. }
  assert (∀ o : nat, (PNone : PyVal nat) ≠ PObj o) as Hnot by discriminate.
  split; [exact Hin|]. split; [exact Hnot|].
  exact (set_cats_unnamed widget_AB PNone PNone Hin Hnot).
Defined.

(** The sources of [A]: its one entry that is no catalog. *)
Example set_cats_demo :
  SourceSelector.set_cats (PObj 0) widget_AB =
    Ok (tt, {| Widget.options := [("src", 9)]; Widget.value := [9] |}).
Proof. by vm_compute. Qed.
End more_examples.

(** * The reacting widget at concrete inputs *)
Section reactive_examples.
Import Demo.

Ltac by_eval := apply (bool_decide_unpack _); vm_compute; exact I.

Lemma plain_callbacks_only (w : Widget.t nat) : callbacks_only (plain w).
Proof. constructor. Defined.

Lemma ready_cat_ready (w : Widget.t nat) : cat_ready (ready w).
Proof. split; [by eexists|reflexivity]. Defined.

(** [ready w] is what [setup] makes of [plain w]. *)
Example ready_after_setup (w : Widget.t nat) :
  CatSelector.setup (plain w) = Ok (tt, ready w).
Proof. reflexivity. Qed.

(** C1: [add([o8, o4])] on the options [{A: o0, B: o1}], where [o8]
    is a new object named [A] and [o4] one named [x]: the entry for
    [o8] has to be renamed and is not the last one, and the call
    raises [RuntimeError] instead of storing [o8] under [A_0]. *)
Theorem add_rename_raises :
  BaseSelector._create_options None (PList [PObj 8; PObj 4]) =
    Ok [("A", 8); ("x", 4)] ∧
  conflicts (Widget.labels widget_AB) (Widget.values widget_AB) ("A", 8) ∧
  BaseSelector.first_free (Widget.labels widget_AB) "A" = Some 0 ∧
  BaseSelector.add None (PList [PObj 8; PObj 4]) widget_AB =
    Raise RuntimeError ∧
  Reactive.add None Reactive.dispatch (PList [PObj 8; PObj 4]) (plain widget_AB) =
    Raise RuntimeError.
Proof. split_and!; [by vm_compute|by_eval|by vm_compute..]. Qed.



(** In a source selector after [setup] the caller is told of the
    shortened selection. *)
Example remove_tells_demo :
  callbacks_only (listening widget_B_expanded) ∧
  outcome (Reactive.remove Reactive.dispatch (PList [PObj 1])
             (listening widget_B_expanded)) =
    Ok ({| Widget.options := [("A", 0); ("└── x", 4)]; Widget.value := [] |},
        None, [[]]).
Proof. split; [by repeat constructor|by vm_compute]. Qed.

(** In a catalog selector after [setup], removing an item that is not
    selected calls no watcher. *)
Example remove_unselected_demo :
  outcome (Reactive.remove Reactive.dispatch (PList [PObj 1])
             (ready widget_A_expanded)) =
    Ok ({| Widget.options := [("A", 0); ("└── x", 2); ("└── y", 3)];
           Widget.value := [0] |}, Some false, []).
Proof. by vm_compute. Qed.

(** What that call leaves: [B] is gone from the options and from the
    selection. *)
Example remove_selected_item_demo :
  outcome (Reactive.remove Reactive.dispatch (PList [PObj 1; PNone])
             (plain widget_B_expanded)) =
    Ok ({| Widget.options := [("A", 0); ("└── x", 4)]; Widget.value := [] |},
        None, []).
Proof. by vm_compute. Qed.


(** With [A] and its child [x] both selected, collapsing shortens
    the selection to [A]; [expand_nested], called for it, puts the
    children of [A] back, and they stay when [A] is removed. *)
Example remove_selected_puts_back :
  outcome (Reactive.remove_selected Reactive.dispatch
             (ready widget_A_and_child)) =
    Ok ({| Widget.options := [("└── x", 2); ("└── y", 3); ("B", 1)];
           Widget.value := [] |}, Some true, [[0]; []]) ∧
  nested_under (Widget.values widget_A_and_child)
    (Widget.value widget_A_and_child) 1 2.
Proof.
  split; [by vm_compute|].
  apply (nested_child _ _ 2 0); [by_eval|done|by_eval].
Qed.


Lemma selected_within :
  Forall (λ v, v ∈ Widget.values widget_A_expanded)
    (Widget.value widget_A_expanded).
Proof. by_eval. Defined.


(** What that call leaves: only [B]. *)
Example remove_selected_demo :
  outcome (Reactive.remove_selected Reactive.dispatch (ready widget_A_expanded)) =
    Ok ({| Widget.options := [("B", 1)]; Widget.value := [] |},
        Some true, [[]]).
Proof. by vm_compute. Qed.

(** In a catalog selector after [setup], setting [items] selects the
    first catalog, and [expand_nested], called for the new selection,
    adds its children to the options. *)
Lemma set_items_expands :
  cat_ready (ready widget_AB) ∧
  outcome (Reactive.set_items (Some CatSelector.preprocess) Reactive.dispatch
             (PList [PObj 0; PObj 1]) (ready widget_AB)) =
    Ok ({| Widget.options := [("A", 0); ("└── x", 2); ("└── y", 3); ("B", 1)];
           Widget.value := [0] |}, Some false, [[0]]) ∧
  odict.of_pairs ((λ o, (name o, o)) <$> [0; 1]) = [("A", 0); ("B", 1)].
Proof. split; [apply ready_cat_ready|]. split; by vm_compute. Qed.

Lemma set_items_replaces_witness :
  callbacks_only (plain widget_B_expanded) ∧
  keeps_objects (Obj:=nat) None ∧
  (PList [PObj 0; PObj 1; PObj 8] = PList (PObj <$> [0; 1; 8]) ∨
   ∃ o, PList [PObj 0; PObj 1; PObj 8] = PObj o ∧ [0; 1; 8] = [o]) ∧
  ∃ s', Reactive.set_items None Reactive.dispatch
          (PList [PObj 0; PObj 1; PObj 8]) (plain widget_B_expanded) =
          Ok (tt, s') ∧
        Widget.options (Selector.widget s') =
          odict.of_pairs ((λ o, (name o, o)) <$> [0; 1; 8]) ∧
        odict.wf (Widget.options (Selector.widget s')) ∧
        Widget.labels (Selector.widget s') =
          first_occurrences (name <$> [0; 1; 8]) ∧
        (∀ k, odict.get k (Widget.options (Selector.widget s')) =
                last (filter (λ o, name o = k) [0; 1; 8])) ∧
        (NoDup (name <$> [0; 1; 8]) →
           Widget.options (Selector.widget s') =
             (λ o, (name o, o)) <$> [0; 1; 8]) ∧
        Widget.value (Selector.widget s') =
          match Widget.values (Selector.widget s') with
          | [] => []
          | v :: _ => [v]
          end.
Proof.
  assert (keeps_objects (Obj:=nat) None) as Hk by by intros f [=].
  split_and!; [apply plain_callbacks_only|exact Hk|by left|].
  exact (set_items_replaces None (plain widget_B_expanded)
           (PList [PObj 0; PObj 1; PObj 8]) [0; 1; 8]
           (plain_callbacks_only _) Hk (or_introl eq_refl)).
Defined.

(** What that call leaves: the last object named [A] under [A], and
    the first option selected. *)
Example set_items_demo :
  outcome (Reactive.set_items None Reactive.dispatch
             (PList [PObj 0; PObj 1; PObj 8]) (plain widget_B_expanded)) =
    Ok ({| Widget.options := [("A", 8); ("B", 1)]; Widget.value := [8] |},
        None, []).
Proof. by vm_compute. Qed.


(** A selection of [A] and of the option that has the label the first
    child of [A] gets: expanding [A] puts the child in its place, the
    displaced object leaves the selection, and the caller is told
    twice, first of the shortened selection. *)
Example selection_told_twice :
  outcome (Reactive.change_value [0; 4] (ready widget_x_in_front)) =
    Ok ({| Widget.options := [("└── x", 2); ("A", 0); ("└── y", 3); ("B", 1)];
           Widget.value := [0] |}, Some false, [[0]; [0; 4]]).
Proof. by vm_compute. Qed.

(** With a toolkit that takes two lists of catalogs for different
    unless both are empty, assigning the selection it has to the widget
    tells the caller again. *)
Example selection_told_again :
  Widget.value widget_A_expanded = [0] ∧
  outcome (Reactive.change_value [0] (ready widget_A_expanded)) =
    Ok (widget_A_expanded, Some false, [[0]]).
Proof. split; [done|by vm_compute]. Qed.



Lemma add_appends_witness :
  callbacks_only (plain widget_AB) ∧
  keeps_objects (Obj:=nat) None ∧
  odict.wf (Widget.options (Selector.widget (plain widget_AB))) ∧
  NoDup (name <$> [2; 3]) ∧
  (∀ o, o ∈ [2; 3] → name o ∉ Widget.labels (Selector.widget (plain widget_AB))) ∧
  ∃ s', Reactive.add None Reactive.dispatch (PList (PObj <$> [2; 3]))
          (plain widget_AB) = Ok (tt, s') ∧
        Widget.options (Selector.widget s') =
          Widget.options (Selector.widget (plain widget_AB)) ++
            ((λ o, (name o, o)) <$> [2; 3]) ∧
        Widget.value (Selector.widget s') = take 1 [2; 3].
Proof.
  assert (keeps_objects (Obj:=nat) None) as Hk by by intros f [=].
  assert (odict.wf (Widget.options (Selector.widget (plain widget_AB))))
    as Hwf by by_eval.
  assert (NoDup (name <$> [2; 3])) as Hnd by by_eval.
  assert (∀ o, o ∈ [2; 3] →
               name o ∉ Widget.labels (Selector.widget (plain widget_AB)))
    as Hfresh.
  { intros o Ho. apply elem_of_cons in Ho as [->|Ho]; [by_eval|].
    apply list_elem_of_singleton in Ho as ->. by_eval. }
  split_and!; [apply plain_callbacks_only|exact Hk|exact Hwf|exact Hnd
              |exact Hfresh|].
  exact (add_appends None (plain widget_AB) [2; 3] (plain_callbacks_only _)
           Hk Hwf Hnd Hfresh).
Defined.


(** In a catalog selector after [setup] the catalog that was added
    is selected and expanded at once. *)
Example add_expands_demo :
  outcome (Reactive.add (Some CatSelector.preprocess) Reactive.dispatch
             (PList [PObj 0])
             (ready {| Widget.options := [("B", 1)]; Widget.value := [] |})) =
    Ok ({| Widget.options := [("B", 1); ("A", 0); ("└── x", 2); ("└── y", 3)];
           Widget.value := [0] |}, Some false, [[0]]).
Proof. by vm_compute. Qed.

Lemma add_remove_round_trip_witness :
  callbacks_only (plain widget_AB) ∧
  keeps_objects (Obj:=nat) None ∧
  odict.wf (Widget.options (Selector.widget (plain widget_AB))) ∧
  NoDup (name <$> [2; 3]) ∧
  (∀ o, o ∈ [2; 3] → name o ∉ Widget.labels (Selector.widget (plain widget_AB))) ∧
  (∀ o, o ∈ [2; 3] → o ∉ Widget.values (Selector.widget (plain widget_AB))) ∧
  ∃ s', (let* _ := Reactive.add None Reactive.dispatch
                     (PList (PObj <$> [2; 3])) in
         Reactive.remove Reactive.dispatch (PList (PObj <$> [2; 3])))
          (plain widget_AB) = Ok (tt, s') ∧
        Widget.options (Selector.widget s') =
          Widget.options (Selector.widget (plain widget_AB)) ∧
        Widget.value (Selector.widget s') = [].
Proof.
  assert (keeps_objects (Obj:=nat) None) as Hk by by intros f [=].
  assert (odict.wf (Widget.options (Selector.widget (plain widget_AB))))
    as Hwf by by_eval.
  assert (NoDup (name <$> [2; 3])) as Hnd by by_eval.
  assert (∀ o, o ∈ [2; 3] →
               name o ∉ Widget.labels (Selector.widget (plain widget_AB)))
    as Hfresh.
  { intros o Ho. apply elem_of_cons in Ho as [->|Ho]; [by_eval|].
    apply list_elem_of_singleton in Ho as ->. by_eval. }
  assert (∀ o, o ∈ [2; 3] →
               o ∉ Widget.values (Selector.widget (plain widget_AB)))
    as Hnew.
  { intros o Ho. apply elem_of_cons in Ho as [->|Ho]; [by_eval|].
    apply list_elem_of_singleton in Ho as ->. by_eval. }
  split_and!; [apply plain_callbacks_only|exact Hk|exact Hwf|exact Hnd
              |exact Hfresh|exact Hnew|].
  exact (add_remove_round_trip None (plain widget_AB) [2; 3]
           (plain_callbacks_only _) Hk Hwf Hnd Hfresh Hnew).
Defined.

Lemma remove_twice_witness :
  callbacks_only (plain widget_B_expanded) ∧
  (∃ s1 s2,
     (let* _ := Reactive.remove Reactive.dispatch (PList [PObj 1]) in
      Reactive.remove Reactive.dispatch (PList [PObj 4]))
       (plain widget_B_expanded) = Ok (tt, s1) ∧
     Reactive.remove Reactive.dispatch (PList ([PObj 1] ++ [PObj 4]))
       (plain widget_B_expanded) = Ok (tt, s2) ∧
     Selector.widget s1 = Selector.widget s2) ∧
  (∀ s1, Reactive.remove Reactive.dispatch (PList [PObj 1])
           (plain widget_B_expanded) = Ok (tt, s1) →
         Reactive.remove Reactive.dispatch (PList [PObj 1]) s1 = Ok (tt, s1)).
Proof.
  split; [apply plain_callbacks_only|].
  exact (remove_twice (plain widget_B_expanded) [PObj 1] [PObj 4]
           (plain_callbacks_only _)).
Defined.

Lemma expand_nested_cases_witness :
  ∃ w', CatSelector.expand_nested [0] (Selector.widget (ready widget_AB)) =
          Ok (tt, w') ∧
        Reactive.expand_nested Reactive.dispatch [0] (ready widget_AB) =
          Reactive.assign_options Reactive.dispatch (Widget.options w')
            (ready widget_AB) ∧
        Widget.labels (Selector.widget (ready widget_AB)) ⊆ Widget.labels w' ∧
        odict.wf (Widget.options w') ∧
        (Forall (λ v, v ∈ Widget.values w')
           (Widget.value (Selector.widget (ready widget_AB))) →
         Reactive.expand_nested Reactive.dispatch [0] (ready widget_AB) =
           Ok (tt, Selector.set_widget w' (ready widget_AB))).
Proof.
  exact (expand_nested_cases Reactive.dispatch (ready widget_AB) [0]).
Defined.

Lemma cat_selection_widget_witness :
  cat_ready (ready widget_AB) ∧
  Widget.value (Selector.widget (ready widget_AB)) ≠ [0] ∧
  CatSelector.expand_nested [0]
    (Widget.set_value [0] (Selector.widget (ready widget_AB))) =
    Ok (tt, widget_A_expanded) ∧
  Forall (λ v, v ∈ Widget.values widget_A_expanded) [0] ∧
  ∃ s', Reactive.change_value [0] (ready widget_AB) = Ok (tt, s') ∧
        Selector.widget s' = widget_A_expanded ∧
        Selector.remove_button s' = Some (bool_decide ([0] = [])) ∧
        Selector.watchers s' = Selector.watchers (ready widget_AB).
Proof.
  assert (Widget.value (Selector.widget (ready widget_AB)) ≠ [0]) as Hne
    by done.
  assert (CatSelector.expand_nested [0]
            (Widget.set_value [0] (Selector.widget (ready widget_AB))) =
            Ok (tt, widget_A_expanded)) as Hexp by by vm_compute.
  split_and!; [apply ready_cat_ready|exact Hne|exact Hexp|exact selected_within|].
  exact (cat_selection_widget (ready widget_AB) [0] widget_A_expanded
           (ready_cat_ready _) Hne Hexp selected_within).
Defined.
End reactive_examples.
